(** * Zenith: conversation store and message dispatcher

    A shallow embedding of [src/context/ZenithContext.tsx]: the reducer
    [zenithReducer], the provider's start-up and persistence effects, and
    the asynchronous [sendMessage], together with the fragment of the
    JavaScript platform they rely on (Date objects and their ISO text,
    JSON values, property access, exceptions).

    Conventions.
    - A JavaScript string is a [jsstring], the list of its UTF-16 code
      units; a [string] is an ASCII text (a literal of the source, the
      text of a date) and is read as the JavaScript string of the same
      characters.
    - A time value is an integer number of milliseconds since the epoch.
    - [nanoid()] and the system clock are oracles read through a counter.
    - A value of static type [any] that flows into a typed position is
      checked against that type; a mismatch leaves the typed program and
      is reported as [Untyped].
    - [sendMessage] takes the state of the render that created it as an
      argument of its own: that state does not change when the store
      does. *)

From Stdlib Require Import ZArith List String Ascii Bool Lia.
Import ListNotations.

Local Open Scope string_scope.
Local Open Scope Z_scope.

(* ================================================================= *)
(** ** Date objects *)

Module JSDate.

(** A Date object holds a time value or NaN ("Invalid Date"). *)
Inductive Date : Type :=
| Instant (t : Z)
| InvalidDate.

Definition msPerDay : Z := 86400000.
Definition maxTime : Z := 8640000000000000.

(** [TimeClip] of ECMA-262: time values outside the range are NaN. *)
Definition TimeClip (t : Z) : Date :=
  if Z.abs t <=? maxTime then Instant t else InvalidDate.

Definition valid (d : Date) : Prop :=
  exists t, d = Instant t /\ Z.abs t <= maxTime.

(** Day number to proleptic Gregorian (year, month, day), months 1..12.
    The 400-year cycle has 146097 days; years start in March inside the
    computation so that the leap day comes last. *)
Definition civil_of_day (day : Z) : Z * Z * Z :=
  let z := day + 719468 in
  let era := z / 146097 in
  let doe := z mod 146097 in
  let yoe := (doe - doe / 1460 + doe / 36524 - doe / 146096) / 365 in
  let doy := doe - (365 * yoe + yoe / 4 - yoe / 100) in
  let mp := (5 * doy + 2) / 153 in
  let d := doy - (153 * mp + 2) / 5 + 1 in
  let m := if mp <? 10 then mp + 3 else mp - 9 in
  let y := yoe + era * 400 in
  (if m <=? 2 then y + 1 else y, m, d).

(** [MakeDay]: (year, month, day) to day number. *)
Definition day_of_civil (y m d : Z) : Z :=
  let y' := if m <=? 2 then y - 1 else y in
  let era := y' / 400 in
  let yoe := y' mod 400 in
  let mp := if 2 <? m then m - 3 else m + 9 in
  let doy := (153 * mp + 2) / 5 + d - 1 in
  let doe := yoe * 365 + yoe / 4 - yoe / 100 + doy in
  era * 146097 + doe - 719468.

Definition civil_eqb (a b : Z * Z * Z) : bool :=
  let '(y1, m1, d1) := a in
  let '(y2, m2, d2) := b in
  (y1 =? y2) && (m1 =? m2) && (d1 =? d2).

(** A triple is a calendar date when it is the date of its own day. *)
Definition legal_date (y m d : Z) : bool :=
  civil_eqb (civil_of_day (day_of_civil y m d)) (y, m, d).

Definition digit_char (d : Z) : ascii := ascii_of_nat (48 + Z.to_nat d).

Definition digit_val (c : ascii) : option Z :=
  let n := Z.of_nat (nat_of_ascii c) in
  if (48 <=? n) && (n <=? 57) then Some (n - 48) else None.

(** [w] decimal digits of [n], most significant first, zero padded. *)
Fixpoint digits (w : nat) (n : Z) : string :=
  match w with
  | O => EmptyString
  | S w' => String (digit_char ((n / 10 ^ Z.of_nat w') mod 10)) (digits w' n)
  end.

Fixpoint read_digits (w : nat) (s : string) (acc : Z) : option (Z * string) :=
  match w with
  | O => Some (acc, s)
  | S w' =>
      match s with
      | String c s' =>
          match digit_val c with
          | Some d => read_digits w' s' (acc * 10 + d)
          | None => None
          end
      | EmptyString => None
      end
  end.

(** Years 0..9999 print with four digits, the others with a sign and six. *)
Definition year_text (y : Z) : string :=
  if (0 <=? y) && (y <=? 9999) then digits 4 y
  else String (if y <? 0 then "-"%char else "+"%char) (digits 6 (Z.abs y)).

(** [Date.prototype.toISOString] on a time value:
    YYYY-MM-DDTHH:mm:ss.sssZ *)
Definition toISOString (t : Z) : string :=
  let day := t / msPerDay in
  let ms := t mod msPerDay in
  let '(y, m, d) := civil_of_day day in
  year_text y ++ "-" ++ digits 2 m ++ "-" ++ digits 2 d ++ "T"
    ++ digits 2 (ms / 3600000) ++ ":" ++ digits 2 ((ms / 60000) mod 60)
    ++ ":" ++ digits 2 ((ms / 1000) mod 60) ++ "." ++ digits 3 (ms mod 1000)
    ++ "Z".

Definition expect (c : ascii) (s : string) : option string :=
  match s with
  | String c' s' => if Ascii.eqb c c' then Some s' else None
  | EmptyString => None
  end.

Definition read_year (s : string) : option (Z * string) :=
  match s with
  | String "+"%char s' => read_digits 6 s' 0
  | String "-"%char s' =>
      match read_digits 6 s' 0 with
      | Some (y, r) => if y =? 0 then None else Some (- y, r)
      | None => None
      end
  | _ => read_digits 4 s 0
  end.

Definition obind {A B} (o : option A) (f : A -> option B) : option B :=
  match o with
  | Some a => f a
  | None => None
  end.

Notation "'let*' x ':=' o 'in' k" := (obind o (fun x => k))
  (at level 10, x name, o at level 200, k at level 200).
Notation "'let*' ' pat ':=' o 'in' k" :=
  (obind o (fun x => match x with pat => k end))
  (at level 10, pat pattern, o at level 200, k at level 200).

(** The time value denoted by a text in the format above, if it is one.
    Field values out of range give no time value; 24:00:00.000 is the
    end of the day. *)
Definition parse_iso (s : string) : option Z :=
  let* '(y, s) := read_year s in
  let* s := expect "-" s in
  let* '(m, s) := read_digits 2 s 0 in
  let* s := expect "-" s in
  let* '(d, s) := read_digits 2 s 0 in
  let* s := expect "T" s in
  let* '(h, s) := read_digits 2 s 0 in
  let* s := expect ":" s in
  let* '(mi, s) := read_digits 2 s 0 in
  let* s := expect ":" s in
  let* '(sec, s) := read_digits 2 s 0 in
  let* s := expect "." s in
  let* '(milli, s) := read_digits 3 s 0 in
  let* s := expect "Z" s in
  match s with
  | EmptyString =>
      if legal_date y m d && (mi <? 60) && (sec <? 60)
         && ((h <? 24)
             || (h =? 24) && (mi =? 0) && (sec =? 0) && (milli =? 0))
      then Some (day_of_civil y m d * msPerDay
                 + h * 3600000 + mi * 60000 + sec * 1000 + milli)
      else None
  | _ => None
  end.

(** [new Date(text)]. Only the complete form that [toISOString] emits is
    recognised: the shorter forms of the format, and the texts whose
    meaning ECMA-262 leaves to the implementation, are not modelled and
    count as not recognised. *)
Definition of_text (s : string) : Date :=
  match parse_iso s with
  | Some t => TimeClip t
  | None => InvalidDate
  end.

End JSDate.

Import JSDate.

(* ================================================================= *)
(** ** JavaScript strings *)

(** A UTF-16 code unit: sixteen bits, kept as two halves of eight. *)
Record code_unit : Type := unit16 { high : ascii; low : ascii }.

(** A JavaScript string is the list of its code units: its length, its
    indices and [slice] count code units. *)
Definition jsstring : Type := list code_unit.

Module JSString.

Definition unit_eqb (a b : code_unit) : bool :=
  Ascii.eqb (high a) (high b) && Ascii.eqb (low a) (low b).

(** [a === b] on strings *)
Fixpoint eqb (a b : jsstring) : bool :=
  match a, b with
  | [], [] => true
  | x :: a', y :: b' => unit_eqb x y && eqb a' b'
  | _, _ => false
  end.

Definition append (a b : jsstring) : jsstring := (a ++ b)%list.

Definition length (s : jsstring) : nat := List.length s.

(** [s.slice(0, n)]: the first [n] code units, all of them when there
    are fewer. *)
Definition slice0 (n : nat) (s : jsstring) : jsstring := firstn n s.

(** The string of an ASCII text, as the string literals of the source
    and the texts of dates are: one code unit for each character. *)
Fixpoint of_ascii (s : string) : jsstring :=
  match s with
  | EmptyString => []
  | String c rest => unit16 zero c :: of_ascii rest
  end.

(** The text of a string whose code units are all below 256; no other
    string is the text of a date. *)
Fixpoint narrow (s : jsstring) : option string :=
  match s with
  | [] => Some EmptyString
  | u :: rest =>
      if Ascii.eqb (high u) zero then
        match narrow rest with
        | Some text => Some (String (low u) text)
        | None => None
        end
      else None
  end.

End JSString.

Coercion JSString.of_ascii : string >-> jsstring.
Arguments JSString.of_ascii : simpl never.

(** A literal under [Some] is read at the type expected of it. *)
#[local] Arguments Some {A} & a.

Declare Scope js_scope.
Delimit Scope js_scope with js.
Bind Scope js_scope with jsstring.
Notation "a ++ b" := (JSString.append a b)
  (at level 60, right associativity) : js_scope.

Local Open Scope js_scope.

(* ================================================================= *)
(** ** Exceptions and results *)

(** What a [catch] clause can tell about the value it caught. *)
Inductive thrown : Type :=
| ErrorObject (name message : jsstring)   (* [error instanceof Error] *)
| OtherValue.

(** The outcome of running a piece of the program. [Untyped]: a value of
    static type [any] (the parsed storage, a response body) was not of
    the type that the data model gives the position it flowed into; what
    the program does from there on is not described. *)
Inductive result (A : Type) : Type :=
| Ok (a : A)
| Throw (e : thrown)
| Untyped.

Arguments Ok {A} & a.
Arguments Throw {A} e.
Arguments Untyped {A}.

Definition rbind {A B} (r : result A) (f : A -> result B) : result B :=
  match r with
  | Ok a => f a
  | Throw e => Throw e
  | Untyped => Untyped
  end.

Notation "'let?' x ':=' r 'in' k" := (rbind r (fun x => k))
  (at level 10, x name, r at level 200, k at level 200).

(** [l.map(f)] when [f] can throw: the first failure ends the loop. *)
Fixpoint rmap {A B} (f : A -> result B) (l : list A) : result (list B) :=
  match l with
  | [] => Ok []
  | x :: rest =>
      let? y := f x in
      let? ys := rmap f rest in
      Ok (y :: ys)
  end.

(* ================================================================= *)
(** ** JSON values *)

Module Json.

(** The values [JSON.parse] and [response.json()] produce. A number is
    kept as the text [ToString] gives for it. An object lists its own
    properties, each key once. *)
#[local] Unset Elimination Schemes.
Inductive json : Type :=
| JNull
| JBool (b : bool)
| JNum (text : jsstring)
| JStr (s : jsstring)
| JArr (elems : list json)
| JObj (fields : list (jsstring * json)).
#[local] Set Elimination Schemes.

(** One property of an object literal. *)
Definition prop (key : jsstring) (value : json) : jsstring * json :=
  (key, value).

Fixpoint lookup (key : jsstring) (fields : list (jsstring * json))
    : option json :=
  match fields with
  | [] => None
  | (k, v) :: rest => if JSString.eqb k key then Some v else lookup key rest
  end.

(** The TypeError of reading a property of [undefined] or [null]; the
    wording is V8's. *)
Definition cannot_read (base key : jsstring) : thrown :=
  ErrorObject "TypeError"
    ("Cannot read properties of " ++ base ++ " (reading '" ++ key ++ "')").

Definition not_a_function (what : jsstring) : thrown :=
  ErrorObject "TypeError" (what ++ " is not a function").

(** [v.key], where [None] is [undefined]. Used with keys that no
    prototype defines, so that only objects have them. *)
Definition get (v : option json) (key : jsstring) : result (option json) :=
  match v with
  | None => Throw (cannot_read "undefined" key)
  | Some JNull => Throw (cannot_read "null" key)
  | Some (JObj fields) => Ok (lookup key fields)
  | Some _ => Ok None
  end.

(** [v?.key] *)
Definition get_optional (v : option json) (key : jsstring)
    : result (option json) :=
  match v with
  | None | Some JNull => Ok None
  | _ => get v key
  end.

(** [v[0]] *)
Definition get_first (v : option json) : result (option json) :=
  match v with
  | None => Throw (cannot_read "undefined" "0")
  | Some JNull => Throw (cannot_read "null" "0")
  | Some (JArr elems) => Ok (hd_error elems)
  | Some (JStr (c :: _)) => Ok (Some (JStr [c]))
  | Some (JObj fields) => Ok (lookup "0" fields)
  | Some _ => Ok None
  end.

(** ToBoolean *)
Definition truthy (v : option json) : bool :=
  match v with
  | None | Some JNull => false
  | Some (JBool b) => b
  | Some (JNum text) => negb (JSString.eqb text "0")
  | Some (JStr s) => negb (JSString.eqb s "")
  | Some (JArr _) | Some (JObj _) => true
  end.

(** ToString. An array joins the texts of its elements, [null] counting
    as the empty text; an object is "[object Object]" unless an own
    [toString] property hides the inherited method. *)
Fixpoint to_string (v : json) : result jsstring :=
  match v with
  | JNull => Ok "null"
  | JBool true => Ok "true"
  | JBool false => Ok "false"
  | JNum text => Ok text
  | JStr s => Ok s
  | JArr elems =>
      (fix join (l : list json) : result jsstring :=
         match l with
         | [] => Ok ""
         | x :: rest =>
             let? s := match x return result jsstring with
                       | JNull => Ok ""
                       | _ => to_string x
                       end in
             match rest with
             | [] => Ok s
             | _ => let? r := join rest in Ok (s ++ "," ++ r)
             end
         end) elems
  | JObj fields =>
      match lookup "toString" fields with
      | Some _ =>
          Throw (ErrorObject "TypeError" "Cannot convert object to primitive value")
      | None => Ok "[object Object]"
      end
  end.

(** Casts from [any] to the declared type of a position. *)
Definition as_string (v : option json) : result jsstring :=
  match v with
  | Some (JStr s) => Ok s
  | _ => Untyped
  end.

End Json.

Import Json.

(* ================================================================= *)
(** ** The conversation store ([types] and [zenithReducer]) *)

(** Modelled from the spec: the declarations of [Message], [Conversation]
    and [ZenithState], which the provider imports from [../types] and
    which are not among the sources. The fields are those of the spec's
    data model under the names the provider reads and writes: a role is
    "user" or "assistant", the active id is a string or [null], the
    credential is [apiKey] and the busy flag is [loading]. *)
Inductive Role : Type := user | assistant.

Definition Role_eqb (a b : Role) : bool :=
  match a, b with
  | user, user | assistant, assistant => true
  | _, _ => false
  end.

Definition role_text (r : Role) : jsstring :=
  match r with
  | user => "user"
  | assistant => "assistant"
  end.

Module Message.

(** Modelled from the spec: [Message] of [../types]. *)
Record t : Type := mk {
  id : jsstring;
  role : Role;
  content : jsstring;
  createdAt : Date
}.

End Message.

Module Conversation.

(** Modelled from the spec: [Conversation] of [../types]. *)
Record t : Type := mk {
  id : jsstring;
  title : jsstring;
  messages : list Message.t;
  createdAt : Date;
  updatedAt : Date
}.

End Conversation.

(** Modelled from the spec: [ZenithState] of [../types]. *)
Record ZenithState : Type := mkState {
  conversations : list Conversation.t;
  activeConversationId : option jsstring;   (* [None] is [null] *)
  apiKey : jsstring;
  loading : bool
}.

Inductive ZenithAction : Type :=
| SET_CONVERSATIONS (payload : list Conversation.t)
| SET_ACTIVE_CONVERSATION (payload : jsstring)
| CREATE_CONVERSATION (payload : Conversation.t)
| ADD_MESSAGE (conversationId : jsstring) (message : Message.t)
| CLEAR_CONVERSATION
| SET_API_KEY (payload : jsstring)
| SET_LOADING (payload : bool).

(** Build-time configuration, [import.meta.env]. *)
Record Env : Type := mkEnv {
  VITE_GEMINI_API_KEY : option jsstring;
  VITE_GEMINI_API_URL : jsstring;
  VITE_GEMINI_MODEL : jsstring
}.

(** Truthiness of a string and of [string | null]. *)
Definition nonempty (s : jsstring) : bool := negb (JSString.eqb s "").

Definition or_else (o : option jsstring) (d : jsstring) : jsstring :=
  match o with
  | Some s => if nonempty s then s else d
  | None => d
  end.

Definition is_truthy (o : option jsstring) : bool :=
  match o with
  | Some s => nonempty s
  | None => false
  end.

(** The active conversation, as [MessageList] resolves it:
    [activeConversationId ? conversations.find(c => c.id === id) : null] *)
Definition activeConversation (state : ZenithState) : option Conversation.t :=
  match activeConversationId state with
  | Some id =>
      if nonempty id
      then find (fun c => JSString.eqb (Conversation.id c) id) (conversations state)
      else None
  | None => None
  end.

Definition initialState (env : Env) : ZenithState :=
  {| conversations := [];
     activeConversationId := None;
     apiKey := or_else (VITE_GEMINI_API_KEY env) "";
     loading := false |}.

Definition default_title : jsstring := "New conversation".

(** [s.slice(0, n)] *)
Definition slice0 (n : nat) (s : jsstring) : jsstring := JSString.slice0 n s.

(** The callback mapped over the conversations by ADD_MESSAGE. *)
Definition add_message (now : Date) (conversationId : jsstring)
    (message : Message.t) (conversation : Conversation.t) : Conversation.t :=
  if JSString.eqb (Conversation.id conversation) conversationId then
    let updatedMessages := (Conversation.messages conversation ++ [message])%list in
    {| Conversation.id := Conversation.id conversation;
       Conversation.title :=
         if JSString.eqb (Conversation.title conversation) default_title
            && Nat.eqb (List.length updatedMessages) 1
         then slice0 30 (Message.content message) ++ "..."
         else Conversation.title conversation;
       Conversation.messages := updatedMessages;
       Conversation.createdAt := Conversation.createdAt conversation;
       Conversation.updatedAt := now |}
  else conversation.

(** The callback mapped over the conversations by CLEAR_CONVERSATION. *)
Definition clear_messages (now : Date) (activeId : jsstring)
    (conversation : Conversation.t) : Conversation.t :=
  if JSString.eqb (Conversation.id conversation) activeId then
    {| Conversation.id := Conversation.id conversation;
       Conversation.title := Conversation.title conversation;
       Conversation.messages := [];
       Conversation.createdAt := Conversation.createdAt conversation;
       Conversation.updatedAt := now |}
  else conversation.

(** [zenithReducer]; [now] is what [new Date()] gives while it runs. *)
Definition zenithReducer (now : Date) (state : ZenithState)
    (action : ZenithAction) : ZenithState :=
  match action with
  | SET_CONVERSATIONS payload =>
      {| conversations := payload;
         activeConversationId := activeConversationId state;
         apiKey := apiKey state;
         loading := loading state |}
  | SET_ACTIVE_CONVERSATION payload =>
      {| conversations := conversations state;
         activeConversationId := Some payload;
         apiKey := apiKey state;
         loading := loading state |}
  | CREATE_CONVERSATION payload =>
      {| conversations := (conversations state ++ [payload])%list;
         activeConversationId := Some (Conversation.id payload);
         apiKey := apiKey state;
         loading := loading state |}
  | ADD_MESSAGE conversationId message =>
      {| conversations :=
           map (add_message now conversationId message) (conversations state);
         activeConversationId := activeConversationId state;
         apiKey := apiKey state;
         loading := loading state |}
  | CLEAR_CONVERSATION =>
      match activeConversationId state with
      | Some activeId =>
          if nonempty activeId then
            {| conversations :=
                 map (clear_messages now activeId) (conversations state);
               activeConversationId := activeConversationId state;
               apiKey := apiKey state;
               loading := loading state |}
          else state
      | None => state
      end
  | SET_API_KEY payload =>
      {| conversations := conversations state;
         activeConversationId := activeConversationId state;
         apiKey := payload;
         loading := loading state |}
  | SET_LOADING payload =>
      {| conversations := conversations state;
         activeConversationId := activeConversationId state;
         apiKey := apiKey state;
         loading := payload |}
  end.

(* ================================================================= *)
(** ** Durable storage and the JSON form of the conversation list *)

(** [localStorage], restricted to the two keys the provider uses. The
    text under 'zenith-conversations' is represented by the JSON value it
    denotes, so that [JSON.parse] of what [JSON.stringify] wrote is that
    value; a text that is not JSON is not represented. *)
Record Storage : Type := mkStorage {
  zenith_conversations : option json;
  zenith_api_key : option jsstring
}.

(** [Date.prototype.toJSON] *)
Definition json_of_date (d : Date) : json :=
  match d with
  | Instant t => JStr (JSString.of_ascii (toISOString t))
  | InvalidDate => JNull
  end.

Definition json_of_message (m : Message.t) : json :=
  JObj [prop "id" (JStr (Message.id m));
        prop "role" (JStr (role_text (Message.role m)));
        prop "content" (JStr (Message.content m));
        prop "createdAt" (json_of_date (Message.createdAt m))].

Definition json_of_conversation (c : Conversation.t) : json :=
  JObj [prop "id" (JStr (Conversation.id c));
        prop "title" (JStr (Conversation.title c));
        prop "messages" (JArr (map json_of_message (Conversation.messages c)));
        prop "createdAt" (json_of_date (Conversation.createdAt c));
        prop "updatedAt" (json_of_date (Conversation.updatedAt c))].

(** [JSON.stringify(state.conversations)], as the value of the text. *)
Definition JSON_stringify (l : list Conversation.t) : json :=
  JArr (map json_of_conversation l).

(** [new Date(text)] on a JavaScript string. *)
Definition Date_of_text (s : jsstring) : Date :=
  match JSString.narrow s with
  | Some text => of_text text
  | None => InvalidDate
  end.

(** [new Date(v)] for a value read from storage: [undefined] is not a
    date, [null] is time 0, a text is parsed. The persisted format has
    no other kind of value in a temporal field. *)
Definition new_Date (v : option json) : result Date :=
  match v with
  | None => Ok InvalidDate
  | Some JNull => Ok (Instant 0)
  | Some (JStr s) => Ok (Date_of_text s)
  | Some _ => Untyped
  end.

Definition as_role (v : option json) : result Role :=
  match v with
  | Some (JStr s) =>
      if JSString.eqb s "user" then Ok user
      else if JSString.eqb s "assistant" then Ok assistant
      else Untyped
  | _ => Untyped
  end.

(** The own properties copied by [{...v}]. *)
Definition own (v : json) (key : jsstring) : option json :=
  match v with
  | JObj fields => lookup key fields
  | _ => None
  end.

(** [(msg) => ({...msg, createdAt: new Date(msg.createdAt)})] *)
Definition revive_message (msg : json) : result Message.t :=
  let? c := get (Some msg) "createdAt" in
  let? createdAt := new_Date c in
  let? id := as_string (own msg "id") in
  let? role := as_role (own msg "role") in
  let? content := as_string (own msg "content") in
  Ok (Message.mk id role content createdAt).

(** [x.map(f)] when [x] was read as the property [key]. *)
Definition map_array {A} (what : jsstring) (x : option json)
    (f : json -> result A) : result (list A) :=
  match x with
  | None => Throw (cannot_read "undefined" "map")
  | Some JNull => Throw (cannot_read "null" "map")
  | Some (JArr elems) => rmap f elems
  | Some _ => Throw (not_a_function (what ++ ".map"))
  end.

(** The callback mapped over the parsed list at start-up. *)
Definition revive_conversation (convo : json) : result Conversation.t :=
  let? c := get (Some convo) "createdAt" in
  let? createdAt := new_Date c in
  let? u := get (Some convo) "updatedAt" in
  let? updatedAt := new_Date u in
  let? ms := get (Some convo) "messages" in
  let? messages := map_array "convo.messages" ms revive_message in
  let? id := as_string (own convo "id") in
  let? title := as_string (own convo "title") in
  Ok (Conversation.mk id title messages createdAt updatedAt).

(** [JSON.parse(savedConversations).map(...)] *)
Definition rehydrate (parsed : json) : result (list Conversation.t) :=
  map_array "JSON.parse(...)" (Some parsed) revive_conversation.

(** The actions the loading effect dispatches, in order. *)
Definition load (saved : Storage) : result (list ZenithAction) :=
  let? dispatched :=
    match zenith_conversations saved with
    | Some savedConversations =>
        let? parsedConversations := rehydrate savedConversations in
        Ok (SET_CONVERSATIONS parsedConversations
            :: match parsedConversations with
               | first :: _ =>
                   [SET_ACTIVE_CONVERSATION (Conversation.id first)]
               | [] => []
               end)
    | None => Ok []
    end in
  Ok (dispatched
      ++ match zenith_api_key saved with
         | Some savedApiKey =>
             if nonempty savedApiKey then [SET_API_KEY savedApiKey] else []
         | None => []
         end)%list.

(** The two saving effects. *)
Definition save_conversations (state : ZenithState) (ls : Storage) : Storage :=
  if (0 <? List.length (conversations state))%nat then
    {| zenith_conversations := Some (JSON_stringify (conversations state));
       zenith_api_key := zenith_api_key ls |}
  else ls.

Definition save_api_key (state : ZenithState) (ls : Storage) : Storage :=
  if nonempty (apiKey state) then
    {| zenith_conversations := zenith_conversations ls;
       zenith_api_key := Some (apiKey state) |}
  else ls.

(** Both effects, in the order they are declared. Each writes a function
    of the state it depends on under a key nothing else writes, so
    running both after every update leaves the storage that running each
    only when its dependency changed would leave. *)
Definition persist (state : ZenithState) (ls : Storage) : Storage :=
  save_api_key state (save_conversations state ls).

(* ================================================================= *)
(** ** The remote completion endpoint *)

Definition header (name value : jsstring) : jsstring * jsstring :=
  (name, value).

Record Request : Type := mkRequest {
  url : jsstring;
  method : jsstring;
  headers : list (jsstring * jsstring);
  body : json
}.

Inductive Body : Type :=
| Unparseable (e : thrown)      (* [response.json()] rejects *)
| Parsed (data : json).

Inductive Reply : Type :=
| Rejected (e : thrown)         (* [fetch] rejects *)
| Responded (ok : bool) (body : Body).

(* ================================================================= *)
(** ** The provider: a state and exception monad over the world *)

Record World : Type := mkWorld {
  env : Env;
  store : ZenithState;            (* the state held by [useReducer] *)
  localStorage : Storage;
  remote : Request -> Reply;
  ids : nat -> jsstring;          (* what [nanoid()] returns, call by call *)
  clock : nat -> Z;               (* what the clock shows, read by read *)
  reads : nat                     (* oracle reads so far *)
}.

Definition M (A : Type) : Type := World -> result A * World.

Definition ret {A} (a : A) : M A := fun w => (Ok a, w).

Definition bind {A B} (m : M A) (f : A -> M B) : M B :=
  fun w =>
    match m w with
    | (Ok a, w') => f a w'
    | (Throw e, w') => (Throw e, w')
    | (Untyped, w') => (Untyped, w')
    end.

Notation "x <- m ;; k" := (bind m (fun x => k))
  (at level 61, m at next level, right associativity).
Notation "m ;;; k" := (bind m (fun _ => k))
  (at level 61, right associativity).

Definition lift {A} (r : result A) : M A := fun w => (r, w).

Definition throw {A} (e : thrown) : M A := lift (Throw e).

(** [try { body } catch (error) { handler } finally { final }]: the
    [finally] clause runs however the rest ends. An [Untyped] outcome is
    not an exception and is not caught. *)
Definition try_catch_finally {A} (body : M A) (handler : thrown -> M A)
    (final : M unit) : M A :=
  fun w =>
    let '(r, w1) :=
      match body w with
      | (Throw e, w') => handler e w'
      | other => other
      end in
    match final w1 with
    | (Ok _, w2) => (r, w2)
    | (Throw e, w2) => (Throw e, w2)
    | (Untyped, w2) => (Untyped, w2)
    end.

Definition tick (w : World) : World :=
  {| env := env w; store := store w; localStorage := localStorage w;
     remote := remote w; ids := ids w; clock := clock w;
     reads := S (reads w) |}.

Definition nanoid : M jsstring := fun w => (Ok (ids w (reads w)), tick w).

(** [new Date()] *)
Definition current_Date : M Date :=
  fun w => (Ok (TimeClip (clock w (reads w))), tick w).

(** [dispatch(action)]: the reducer runs on the state the store holds,
    reading the clock, and the saving effects run on the new state. *)
Definition dispatch (action : ZenithAction) : M unit :=
  fun w =>
    let next := zenithReducer (TimeClip (clock w (reads w))) (store w) action in
    (Ok tt,
     {| env := env w; store := next;
        localStorage := persist next (localStorage w);
        remote := remote w; ids := ids w; clock := clock w;
        reads := S (reads w) |}).

Fixpoint dispatch_all (actions : list ZenithAction) : M unit :=
  match actions with
  | [] => ret tt
  | a :: rest => dispatch a ;;; dispatch_all rest
  end.

(** Mounting [ZenithProvider]: the store starts from [initialState]; the
    loading effect reads the storage and queues its actions; the saving
    effects run on the initial state; the queued actions are applied. *)
Definition mount : M unit :=
  fun w =>
    let state := initialState (env w) in
    let saved := localStorage w in
    let w0 :=
      {| env := env w; store := state; localStorage := saved;
         remote := remote w; ids := ids w; clock := clock w;
         reads := reads w |} in
    match load saved with
    | Ok actions =>
        dispatch_all actions
          {| env := env w; store := state;
             localStorage := persist state saved;
             remote := remote w; ids := ids w; clock := clock w;
             reads := reads w |}
    | Throw e => (Throw e, w0)
    | Untyped => (Untyped, w0)
    end.

Definition createNewConversation : M unit :=
  id <- nanoid ;;
  createdAt <- current_Date ;;
  updatedAt <- current_Date ;;
  dispatch (CREATE_CONVERSATION
              (Conversation.mk id default_title [] createdAt updatedAt)).

Definition setActiveConversation (id : jsstring) : M unit :=
  dispatch (SET_ACTIVE_CONVERSATION id).

Definition clearConversation : M unit := dispatch CLEAR_CONVERSATION.

Definition setApiKey (key : jsstring) : M unit := dispatch (SET_API_KEY key).

(** [l[l.length - 1]]: [undefined] on the empty list. *)
Definition last_of {A} (l : list A) : option A :=
  nth_error l (List.length l - 1).

(** [state.activeConversationId ||
     state.conversations[state.conversations.length - 1].id] *)
Definition resolve_conversation (state : ZenithState) : result jsstring :=
  match activeConversationId state with
  | Some id =>
      if nonempty id then Ok id
      else match last_of (conversations state) with
           | Some c => Ok (Conversation.id c)
           | None => Throw (cannot_read "undefined" "id")
           end
  | None =>
      match last_of (conversations state) with
      | Some c => Ok (Conversation.id c)
      | None => Throw (cannot_read "undefined" "id")
      end
  end.

Definition transcript_entry (role : Role) (content : jsstring) : json :=
  JObj [prop "role" (JStr (role_text role)); prop "content" (JStr content)].

Definition completion_request (e : Env) (key : jsstring) (messages : list json)
    : Request :=
  {| url := VITE_GEMINI_API_URL e;
     method := "POST";
     headers := [header "Authorization" ("Bearer " ++ key);
                 header "Content-Type" "application/json"];
     body := JObj [prop "model" (JStr (VITE_GEMINI_MODEL e));
                   prop "messages" (JArr messages);
                   prop "temperature" (JNum "0.7");
                   prop "max_tokens" (JNum "1000")] |}.

(** [await fetch(...)] followed by [await response.json()] *)
Definition fetch_json (request : Request) : M (bool * json) :=
  fun w =>
    match remote w request with
    | Rejected e => (Throw e, w)
    | Responded _ (Unparseable e) => (Throw e, w)
    | Responded ok (Parsed data) => (Ok (ok, data), w)
    end.

(** [data.error?.message || 'Failed to get response from Gemini API'],
    as the message of the Error made from it. *)
Definition remote_error_message (data : json) : result jsstring :=
  let? error := get (Some data) "error" in
  let? message := get_optional error "message" in
  match message with
  | Some v => if truthy message then to_string v
              else Ok "Failed to get response from Gemini API"
  | None => Ok "Failed to get response from Gemini API"
  end.

(** [data.choices[0].message.content], the value read. *)
Definition first_choice_value (data : json) : result (option json) :=
  let? choices := get (Some data) "choices" in
  let? choice := get_first choices in
  let? message := get choice "message" in
  get message "content".

(** The same as the content of a [Message], a position of type string.
    The source stores the value as it is; [Message] has a string there,
    so a value of another type is [Untyped] and the theorems about
    replies are stated for a [typed_service]. *)
Definition first_choice_content (data : json) : result jsstring :=
  let? content := first_choice_value data in
  as_string content.

(** The transcript sent: the messages of the conversation as the closure
    sees them, then the new content. *)
Definition outgoing_messages (activeConversation : Conversation.t)
    (content : jsstring) : list json :=
  (map (fun m => transcript_entry (Message.role m) (Message.content m))
       (Conversation.messages activeConversation)
   ++ [transcript_entry user content])%list.

(** The body of the [try] block. *)
Definition request_reply (state : ZenithState)
    (conversationId content : jsstring)
    : M unit :=
  if negb (nonempty (apiKey state)) then
    throw (ErrorObject "Error" "Please set your Gemini API key in the settings")
  else
    match find (fun c => JSString.eqb (Conversation.id c) conversationId)
               (conversations state) with
    | None => ret tt     (* [return], through the [finally] clause *)
    | Some activeConversation =>
        let messages := outgoing_messages activeConversation content in
        e <- (fun w => (Ok (env w), w)) ;;
        response <- fetch_json (completion_request e (apiKey state) messages) ;;
        (let '(ok, data) := response in
         (if negb ok then
            message <- lift (remote_error_message data) ;;
            throw (ErrorObject "Error" message)
          else ret tt) ;;;
         id <- nanoid ;;
         text <- lift (first_choice_content data) ;;
         createdAt <- current_Date ;;
         dispatch (ADD_MESSAGE conversationId
                     (Message.mk id assistant text createdAt)))
    end.

(** [error instanceof Error ? error.message : 'Unknown error occurred'] *)
Definition describe (error : thrown) : jsstring :=
  match error with
  | ErrorObject _ message => message
  | OtherValue => "Unknown error occurred"
  end.

(** The [catch] block. *)
Definition report_error (conversationId : jsstring) (error : thrown) : M unit :=
  id <- nanoid ;;
  createdAt <- current_Date ;;
  dispatch (ADD_MESSAGE conversationId
              (Message.mk id assistant ("Error: " ++ describe error) createdAt)).

(** [sendMessage]. [state] is the state of the render that created the
    closure: dispatching changes the store, not [state]. The result is
    how the returned promise settles. *)
Definition sendMessage (state : ZenithState) (content : jsstring) : M unit :=
  (if negb (is_truthy (activeConversationId state))
   then createNewConversation else ret tt) ;;;
  conversationId <- lift (resolve_conversation state) ;;
  id <- nanoid ;;
  createdAt <- current_Date ;;
  dispatch (ADD_MESSAGE conversationId (Message.mk id user content createdAt)) ;;;
  dispatch (SET_LOADING true) ;;;
  try_catch_finally
    (request_reply state conversationId content)
    (report_error conversationId)
    (dispatch (SET_LOADING false)).

(* ================================================================= *)
(** ** The message list ([MessageList]) *)

(** Where a row sits: a user message at the end of the line
    ([justify-end]), any other at its start. *)
Inductive Justify : Type := justify_end | justify_start.

(** One rendered message: its React key, its side, the text handed to
    the markdown renderer and the time handed to the formatter. *)
Record Row : Type := mkRow {
  key : jsstring;
  justify : Justify;
  markdown : jsstring;
  time : Z
}.

(** What the component returns: one of its three bodies. *)
Inductive View : Type :=
| NoConversationSelected
| Welcome
| Thread (rows : list Row).

(** [formatTime]: [Intl.DateTimeFormat.prototype.format] throws a
    RangeError on a Date that is not a time value. The text it returns
    depends on the time zone of the browser; the row keeps the time
    value it is the text of. *)
Definition formatTime (date : Date) : result Z :=
  match date with
  | Instant t => Ok t
  | InvalidDate => Throw (ErrorObject "RangeError" "Invalid time value")
  end.

Definition render_row (message : Message.t) : result Row :=
  let? shown := formatTime (Message.createdAt message) in
  Ok {| key := Message.id message;
        justify := if Role_eqb (Message.role message) user
                   then justify_end else justify_start;
        markdown := Message.content message;
        time := shown |}.

(** [MessageList], on the state [useZenith()] gives it. *)
Definition MessageList (state : ZenithState) : result View :=
  match activeConversation state with
  | None => Ok NoConversationSelected
  | Some conversation =>
      match Conversation.messages conversation with
      | [] => Ok Welcome
      | messages =>
          let? rows := rmap render_row messages in
          Ok (Thread rows)
      end
  end.

(* ================================================================= *)
(** ** Vocabulary of the properties *)

(** Every Date of the list is a time value in range. *)
Definition valid_message (m : Message.t) : Prop :=
  JSDate.valid (Message.createdAt m).

Definition valid_conversation (c : Conversation.t) : Prop :=
  JSDate.valid (Conversation.createdAt c)
  /\ JSDate.valid (Conversation.updatedAt c)
  /\ Forall valid_message (Conversation.messages c).

(** How one conversation relates to itself after a send to
    [conversationId] that appended [new]. *)
Definition grown (conversationId : jsstring) (new : list Message.t)
    (before after : Conversation.t) : Prop :=
  Conversation.id after = Conversation.id before
  /\ Conversation.createdAt after = Conversation.createdAt before
  /\ Conversation.messages after =
       if JSString.eqb (Conversation.id before) conversationId
       then (Conversation.messages before ++ new)%list
       else Conversation.messages before.

(** A sequence of [appendMessage] calls: the clock reading, the target
    and the message of each. *)
Definition Append : Type := Date * jsstring * Message.t.

Definition append_to (c : Conversation.t) (a : Append) : Conversation.t :=
  let '(now, conversationId, message) := a in
  add_message now conversationId message c.

Definition append_action (a : Append) : Date * ZenithAction :=
  let '(now, conversationId, message) := a in
  (now, ADD_MESSAGE conversationId message).

Definition reduce_all (steps : list (Date * ZenithAction)) (state : ZenithState)
    : ZenithState :=
  fold_left (fun s '(now, action) => zenithReducer now s action) steps state.

(** The number of appends of the sequence after which the title of the
    conversation is another than before. *)
Fixpoint title_changes (calls : list Append) (c : Conversation.t) : nat :=
  match calls with
  | [] => 0
  | a :: rest =>
      let c' := append_to c a in
      ((if JSString.eqb (Conversation.title c') (Conversation.title c)
        then 0 else 1)
       + title_changes rest c')%nat
  end.

Definition targets (conversationId : jsstring) (a : Append) : bool :=
  let '(_, target, _) := a in JSString.eqb target conversationId.

(** The condition of the derivation: the append takes the conversation
    from no message to one while its title is the default. *)
Definition first_message_of_untitled (conversationId : jsstring)
    (c : Conversation.t) : bool :=
  JSString.eqb (Conversation.id c) conversationId
  && Nat.eqb (List.length (Conversation.messages c)) 0
  && JSString.eqb (Conversation.title c) default_title.

(** The same worlds, as far as a request can tell. *)
Definition same_service (w w' : World) : Prop :=
  env w = env w' /\ remote w = remote w'.

(** The world in which the [try] block of [sendMessage] is entered: the
    user message was dispatched and the busy flag set. *)
Definition entered (w : World) (conversationId content : jsstring) : World :=
  snd ((id <- nanoid ;;
        createdAt <- current_Date ;;
        dispatch (ADD_MESSAGE conversationId
                    (Message.mk id user content createdAt)) ;;;
        dispatch (SET_LOADING true)) w).

(** The number of assistant messages in the store. *)
Definition assistant_count (state : ZenithState) : nat :=
  List.length
    (filter (fun m => Role_eqb (Message.role m) assistant)
       (flat_map Conversation.messages (conversations state))).

(** The messages a sequence of appends addresses to [conversationId], in
    call order. *)
Definition addressed (conversationId : jsstring) (calls : list Append)
    : list Message.t :=
  map (fun a : Append => snd a) (filter (targets conversationId) calls).

(** An action that neither replaces the list nor selects an id that
    names no conversation of it. *)
Definition keeps_selection (state : ZenithState) (action : ZenithAction) : Prop :=
  match action with
  | SET_CONVERSATIONS _ => False
  | SET_ACTIVE_CONVERSATION payload =>
      nonempty payload = true
      /\ exists c, In c (conversations state) /\ Conversation.id c = payload
  | CREATE_CONVERSATION payload => nonempty (Conversation.id payload) = true
  | _ => True
  end.

(** The Dates an action carries are time values. *)
Definition valid_payload (action : ZenithAction) : Prop :=
  match action with
  | SET_CONVERSATIONS payload => Forall valid_conversation payload
  | CREATE_CONVERSATION payload => valid_conversation payload
  | ADD_MESSAGE _ message => valid_message message
  | _ => True
  end.

(** The world in which [sendMessage] resolves the conversation id: after
    [createNewConversation] when the closure has no active id. *)
Definition started (state : ZenithState) (w : World) : World :=
  if is_truthy (activeConversationId state) then w
  else snd (createNewConversation w).

(** The service answers with a string where a [Message] has its
    content: in every body it sends under a success status, the value of
    [choices[0].message.content], when the dispatcher can read it, is a
    string. *)
Definition typed_service (w : World) : Prop :=
  forall request data content,
    remote w request = Responded true (Parsed data) ->
    first_choice_value data = Ok content ->
    exists text, content = Some (JStr text).

(** The clock never leaves the range of time values. *)
Definition clock_in_range (w : World) : Prop :=
  forall n, Z.abs (clock w n) <= maxTime.

Definition is_time_value (d : Date) : bool :=
  match d with
  | Instant _ => true
  | InvalidDate => false
  end.

(** A row shows a message: its id as key, its content as text, its time
    value, at the end side for the user and at the start side for the
    assistant. *)
Definition shows (m : Message.t) (row : Row) : Prop :=
  key row = Message.id m
  /\ markdown row = Message.content m
  /\ Message.createdAt m = Instant (time row)
  /\ justify row = match Message.role m with
                   | user => justify_end
                   | assistant => justify_start
                   end.

(* ================================================================= *)
(** ** Sample data *)

Definition sample_conversation : Conversation.t :=
  Conversation.mk "c1" "Plans..."
    [Message.mk "m1" user "Plans" (Instant 1000)] (Instant 1000) (Instant 1000).

Definition sample_state : ZenithState :=
  {| conversations := [sample_conversation];
     activeConversationId := Some "c1";
     apiKey := "";
     loading := false |}.

Definition sample_env : Env :=
  {| VITE_GEMINI_API_KEY := None;
     VITE_GEMINI_API_URL := "https://example.test/v1/chat/completions";
     VITE_GEMINI_MODEL := "gemini" |}.

(** A build that brings a default credential. *)
Definition keyed_env : Env :=
  {| VITE_GEMINI_API_KEY := Some "sk-env";
     VITE_GEMINI_API_URL := "https://example.test/v1/chat/completions";
     VITE_GEMINI_MODEL := "gemini" |}.

Definition sample_ids (n : nat) : jsstring :=
  match n with
  | 0%nat => "id-a"
  | 1%nat => "id-b"
  | 2%nat => "id-c"
  | 3%nat => "id-d"
  | 4%nat => "id-e"
  | 5%nat => "id-f"
  | _ => "id-g"
  end.

Definition sample_clock (n : nat) : Z := 5000 + Z.of_nat n.

Definition no_service (_ : Request) : Reply :=
  Rejected (ErrorObject "TypeError" "Failed to fetch").

Definition world_of (state : ZenithState) (ls : Storage)
    (service : Request -> Reply) : World :=
  {| env := sample_env; store := state; localStorage := ls;
     remote := service; ids := sample_ids; clock := sample_clock;
     reads := 0 |}.

Definition empty_storage : Storage :=
  {| zenith_conversations := None; zenith_api_key := None |}.

(** The storage once the sample conversation was saved. *)
Definition saved_storage : Storage :=
  {| zenith_conversations := Some (JSON_stringify [sample_conversation]);
     zenith_api_key := None |}.

(** A store whose credential "sk-1" was set and saved. *)
Definition keyed_state : ZenithState :=
  {| conversations := [sample_conversation];
     activeConversationId := Some "c1";
     apiKey := "sk-1";
     loading := false |}.

Definition keyed_storage : Storage :=
  {| zenith_conversations := Some (JSON_stringify [sample_conversation]);
     zenith_api_key := Some "sk-1" |}.

(** A store whose active id names no conversation, as
    [setActiveConversation "gone"] leaves it. *)
Definition dangling_state : ZenithState :=
  {| conversations := [sample_conversation];
     activeConversationId := Some "gone";
     apiKey := "";
     loading := false |}.

(** A service that answers every request with one completion choice. *)
Definition greeting : json :=
  JObj [prop "choices"
          (JArr [JObj [prop "message"
                         (JObj [prop "role" (JStr "assistant");
                                prop "content" (JStr "Hello!")])]])].

Definition greeting_service (_ : Request) : Reply :=
  Responded true (Parsed greeting).

(** A service that refuses every request. *)
Definition refusal : json :=
  JObj [prop "error" (JObj [prop "message" (JStr "API key not valid")])].

Definition refusing_service (_ : Request) : Reply :=
  Responded false (Parsed refusal).

(** A clock that stays in range and a world that reads it. *)
Definition steady_clock (n : nat) : Z := Z.min (5000 + Z.of_nat n) 9000.

Definition steady_world (state : ZenithState) (ls : Storage)
    (service : Request -> Reply) : World :=
  {| env := sample_env; store := state; localStorage := ls;
     remote := service; ids := sample_ids; clock := steady_clock;
     reads := 0 |}.

(** A store whose active conversation was just created. *)
Definition fresh_conversation : Conversation.t :=
  Conversation.mk "c0" "New conversation" [] (Instant 1000) (Instant 1000).

Definition fresh_state : ZenithState :=
  {| conversations := [fresh_conversation];
     activeConversationId := Some "c0";
     apiKey := "sk-1";
     loading := false |}.

Definition fresh_storage : Storage :=
  {| zenith_conversations := Some (JSON_stringify [fresh_conversation]);
     zenith_api_key := Some "sk-1" |}.

(** The store after [setActiveConversation ""]. *)
Definition unselected_state : ZenithState :=
  {| conversations := [sample_conversation];
     activeConversationId := Some "";
     apiKey := "";
     loading := false |}.

(** ** JavaScript strings *)

Lemma unit_eqb_spec (a b : code_unit) : JSString.unit_eqb a b = true <-> a = b.
Proof.
  destruct a as [h1 l1], b as [h2 l2]. unfold JSString.unit_eqb. cbn.
  rewrite andb_true_iff, !Ascii.eqb_eq. split.
  - intros [-> ->]. reflexivity.
  - intros E. injection E as -> ->. auto.
Qed.

Module JSStringFacts.

Lemma eqb_eq (a b : jsstring) : JSString.eqb a b = true <-> a = b.
Proof.
  revert b. induction a as [| x a IH]; intros [| y b]; cbn [JSString.eqb];
    try (split; [discriminate | discriminate]); [split; reflexivity |].
  rewrite andb_true_iff, unit_eqb_spec, IH. split.
  - intros [-> ->]. reflexivity.
  - intros E. injection E as -> ->. auto.
Qed.

Lemma eqb_refl (a : jsstring) : JSString.eqb a a = true.
Proof. now apply eqb_eq. Qed.

Lemma eqb_neq (a b : jsstring) : JSString.eqb a b = false <-> a <> b.
Proof.
  split.
  - intros H E. apply eqb_eq in E. congruence.
  - intros H. destruct (JSString.eqb a b) eqn:E; [| reflexivity].
    apply eqb_eq in E. contradiction.
Qed.

Lemma eqb_sym (a b : jsstring) : JSString.eqb a b = JSString.eqb b a.
Proof.
  destruct (JSString.eqb b a) eqn:E.
  - apply eqb_eq in E. subst. apply eqb_refl.
  - apply eqb_neq. apply eqb_neq in E. congruence.
Qed.

(** The text of the string of a text is that text. *)
Lemma narrow_of_ascii (s : string) :
  JSString.narrow (JSString.of_ascii s) = Some s.
Proof.
  induction s as [| c s IH]; [reflexivity |].
  change (JSString.of_ascii (String c s))
    with (unit16 zero c :: JSString.of_ascii s).
  cbn [JSString.narrow high low].
  rewrite Ascii.eqb_refl, IH. reflexivity.
Qed.

(** [slice(0, n)] keeps the first code units of the string, [n] of them
    or all when there are fewer, and nothing else. *)
Lemma slice0_prefix (n : nat) (s : jsstring) :
  JSString.length (JSString.slice0 n s) = Nat.min n (JSString.length s)
  /\ s = JSString.slice0 n s ++ skipn n s.
Proof.
  unfold JSString.length, JSString.slice0, JSString.append. split.
  - apply length_firstn.
  - symmetry. apply firstn_skipn.
Qed.

End JSStringFacts.

(* ================================================================= *)
(** * Properties *)

(** ** ISO text of a time value *)

Local Open Scope string_scope.
Local Open Scope Z_scope.

Example iso_epoch : toISOString 0 = "1970-01-01T00:00:00.000Z".
Proof. reflexivity. Qed.

Example iso_sample : toISOString 1700000000123 = "2023-11-14T22:13:20.123Z".
Proof. vm_compute. reflexivity. Qed.

Example iso_neg : toISOString (-62167219200001) = "-000001-12-31T23:59:59.999Z".
Proof. vm_compute. reflexivity. Qed.

Example iso_max : toISOString 8640000000000000 = "+275760-09-13T00:00:00.000Z".
Proof. vm_compute. reflexivity. Qed.

Example iso_min : toISOString (-8640000000000000) = "-271821-04-20T00:00:00.000Z".
Proof. vm_compute. reflexivity. Qed.

Example iso_year_zero : toISOString (-62167219200000) = "0000-01-01T00:00:00.000Z".
Proof. vm_compute. reflexivity. Qed.

Example parse_rejects_february_30 : of_text "2023-02-30T00:00:00.000Z" = InvalidDate.
Proof. vm_compute. reflexivity. Qed.

Example parse_end_of_day :
  of_text "2023-11-14T24:00:00.000Z" = of_text "2023-11-15T00:00:00.000Z".
Proof. vm_compute. reflexivity. Qed.

Example parse_sample : of_text "2023-11-14T22:13:20.123Z" = Instant 1700000000123.
Proof. vm_compute. reflexivity. Qed.

Lemma digit_val_char (d : Z) : 0 <= d < 10 -> digit_val (digit_char d) = Some d.
Proof.
  intros H.
  assert (E : d = 0 \/ d = 1 \/ d = 2 \/ d = 3 \/ d = 4 \/ d = 5 \/ d = 6
              \/ d = 7 \/ d = 8 \/ d = 9) by lia.
  repeat (destruct E as [E | E]; [subst d; reflexivity |]).
  subst d; reflexivity.
Qed.

Lemma read_digits_digits (w : nat) :
  forall n rest acc, 0 <= n ->
    read_digits w (digits w n ++ rest) acc
    = Some (acc * 10 ^ Z.of_nat w + n mod 10 ^ Z.of_nat w, rest).
Proof.
  induction w as [| w IH]; intros n rest acc Hn.
  - simpl. rewrite Z.mod_1_r. f_equal. f_equal. lia.
  - cbn [digits read_digits append].
    assert (Hp : 0 < 10 ^ Z.of_nat w) by (apply Z.pow_pos_nonneg; lia).
    rewrite digit_val_char by (apply Z.mod_pos_bound; lia).
    rewrite IH by assumption. f_equal. f_equal.
    rewrite Nat2Z.inj_succ, Z.pow_succ_r by lia.
    rewrite (Z.mul_comm 10), Z.rem_mul_r by lia. ring.
Qed.

Lemma read_digits_exact (w : nat) (n : Z) (rest : string) :
  0 <= n < 10 ^ Z.of_nat w ->
  read_digits w (digits w n ++ rest) 0 = Some (n, rest).
Proof.
  intros H. rewrite read_digits_digits by lia.
  rewrite Z.mod_small by lia. reflexivity.
Qed.

(** Inside a 400-year cycle: the year of the cycle and the day of that
    year are in range, and month and day determine the day of the year. *)
Lemma year_of_era_bounds (doe : Z) :
  0 <= doe < 146097 ->
  let yoe := (doe - doe / 1460 + doe / 36524 - doe / 146096) / 365 in
  0 <= yoe < 400 /\ 0 <= doe - (365 * yoe + yoe / 4 - yoe / 100) <= 365.
Proof.
  intros H yoe. subst yoe. Z.div_mod_to_equations. lia.
Qed.

Lemma day_of_year_roundtrip (doy : Z) :
  0 <= doy <= 365 ->
  let mp := (5 * doy + 2) / 153 in
  0 <= mp <= 11
  /\ (153 * mp + 2) / 5 + (doy - (153 * mp + 2) / 5 + 1) - 1 = doy
  /\ 1 <= doy - (153 * mp + 2) / 5 + 1 <= 31.
Proof.
  intros H mp. subst mp. Z.div_mod_to_equations. lia.
Qed.

Lemma day_of_civil_of_day (day y m d : Z) :
  civil_of_day day = (y, m, d) -> day_of_civil y m d = day.
Proof.
  unfold civil_of_day.
  set (z := day + 719468).
  set (doe := z mod 146097).
  set (yoe := (doe - doe / 1460 + doe / 36524 - doe / 146096) / 365).
  set (doy := doe - (365 * yoe + yoe / 4 - yoe / 100)).
  set (mp := (5 * doy + 2) / 153).
  assert (Hdoe : 0 <= doe < 146097) by (apply Z.mod_pos_bound; lia).
  destruct (year_of_era_bounds doe Hdoe) as [Hyoe Hdoy].
  fold yoe in Hyoe, Hdoy. fold doy in Hdoy.
  destruct (day_of_year_roundtrip doy Hdoy) as (Hmp & Hback & _).
  fold mp in Hmp, Hback.
  assert (Hz : z = 146097 * (z / 146097) + doe)
    by (apply Z.div_mod; lia).
  intros E.
  pose proof (f_equal (fun p => snd (fst p)) E) as Em.
  pose proof (f_equal snd E) as Ed.
  pose proof (f_equal (fun p => fst (fst p)) E) as Ey.
  cbv beta iota delta [fst snd] in Em, Ed, Ey.
  rewrite Em in Ey. symmetry in Em, Ed, Ey.
  clear E. unfold day_of_civil.
  assert (Ey' : (if m <=? 2 then y - 1 else y) = yoe + z / 146097 * 400).
  { rewrite Ey. destruct (m <=? 2); lia. }
  rewrite Ey'. rewrite Z.div_add, Z.mod_add by lia.
  rewrite Z.div_small, Z.mod_small by lia.
  assert (Emp : (if 2 <? m then m - 3 else m + 9) = mp).
  { rewrite Em. destruct (Z.ltb_spec mp 10).
    - destruct (Z.ltb_spec 2 (mp + 3)); lia.
    - destruct (Z.ltb_spec 2 (mp - 9)); lia. }
  rewrite Emp, Ed, Hback. unfold z in *. lia.
Qed.

Lemma civil_of_day_fields (day y m d : Z) :
  civil_of_day day = (y, m, d) -> 1 <= m <= 12 /\ 1 <= d <= 31.
Proof.
  unfold civil_of_day.
  set (doe := (day + 719468) mod 146097).
  set (yoe := (doe - doe / 1460 + doe / 36524 - doe / 146096) / 365).
  set (doy := doe - (365 * yoe + yoe / 4 - yoe / 100)).
  set (mp := (5 * doy + 2) / 153).
  assert (Hdoe : 0 <= doe < 146097) by (apply Z.mod_pos_bound; lia).
  destruct (year_of_era_bounds doe Hdoe) as [_ Hdoy].
  fold yoe in Hdoy. fold doy in Hdoy.
  destruct (day_of_year_roundtrip doy Hdoy) as (Hmp & _ & Hd).
  fold mp in Hmp, Hd.
  intros E.
  pose proof (f_equal (fun p => snd (fst p)) E) as Em.
  pose proof (f_equal snd E) as Ed.
  cbv beta iota delta [fst snd] in Em, Ed.
  split; [| lia].
  rewrite <- Em. destruct (Z.ltb_spec mp 10); lia.
Qed.

Lemma civil_of_day_year (day y m d : Z) :
  -100000000 <= day <= 100000000 ->
  civil_of_day day = (y, m, d) -> -999999 <= y <= 999999.
Proof.
  unfold civil_of_day.
  set (z := day + 719468).
  set (doe := z mod 146097).
  set (yoe := (doe - doe / 1460 + doe / 36524 - doe / 146096) / 365).
  assert (Hdoe : 0 <= doe < 146097) by (apply Z.mod_pos_bound; lia).
  destruct (year_of_era_bounds doe Hdoe) as [Hyoe _]. fold yoe in Hyoe.
  intros Hday E.
  pose proof (f_equal (fun p => fst (fst p)) E) as Ey.
  cbv beta iota delta [fst snd] in Ey.
  assert (Hera : -680 <= z / 146097 <= 690).
  { unfold z. split.
    - apply Z.div_le_lower_bound; lia.
    - apply Z.div_le_upper_bound; lia. }
  rewrite <- Ey.
  match goal with |- context [if ?c then _ else _] => destruct c end; lia.
Qed.

Lemma legal_civil_of_day (day y m d : Z) :
  civil_of_day day = (y, m, d) -> legal_date y m d = true.
Proof.
  intros E. unfold legal_date.
  rewrite (day_of_civil_of_day _ _ _ _ E), E.
  unfold civil_eqb. rewrite !Z.eqb_refl. reflexivity.
Qed.

Lemma read_year_digit (x : Z) (s : string) :
  0 <= x < 10 ->
  read_year (String (digit_char x) s) = read_digits 4 (String (digit_char x) s) 0.
Proof.
  intros H.
  assert (E : x = 0 \/ x = 1 \/ x = 2 \/ x = 3 \/ x = 4 \/ x = 5 \/ x = 6
              \/ x = 7 \/ x = 8 \/ x = 9) by lia.
  repeat (destruct E as [E | E]; [subst x; reflexivity |]).
  subst x; reflexivity.
Qed.

Lemma read_year_text (y : Z) (rest : string) :
  -999999 <= y <= 999999 ->
  read_year (year_text y ++ rest) = Some (y, rest).
Proof.
  intros Hy. unfold year_text.
  destruct (Z.leb_spec 0 y) as [H0 | H0]; cbn [andb].
  - destruct (Z.leb_spec y 9999) as [H1 | H1].
    + assert (E : read_year (digits 4 y ++ rest)
                  = read_digits 4 (digits 4 y ++ rest) 0).
      { cbn [digits append]. apply read_year_digit.
        apply Z.mod_pos_bound. lia. }
      rewrite E. apply read_digits_exact. simpl. lia.
    + destruct (Z.ltb_spec y 0); [lia |].
      cbn [append read_year].
      rewrite read_digits_exact by (simpl; lia).
      f_equal. f_equal. lia.
  - destruct (Z.ltb_spec y 0); [| lia].
    cbn [append read_year].
    rewrite read_digits_exact by (simpl; lia).
    destruct (Z.eqb_spec (Z.abs y) 0); [lia |].
    f_equal. f_equal. lia.
Qed.

Lemma expect_same (c : ascii) (s : string) : expect c (String c s) = Some s.
Proof. unfold expect. rewrite Ascii.eqb_refl. reflexivity. Qed.

(** Reading back the text of a time value in range gives that value. *)
Lemma parse_iso_toISOString (t : Z) :
  Z.abs t <= maxTime -> parse_iso (toISOString t) = Some t.
Proof.
  unfold maxTime. intros Ht.
  unfold toISOString, parse_iso.
  set (day := t / msPerDay). set (ms := t mod msPerDay).
  assert (Hms : 0 <= ms < 86400000) by (apply Z.mod_pos_bound; reflexivity).
  assert (Hday : -100000000 <= day <= 100000000).
  { unfold day, msPerDay. split.
    - apply Z.div_le_lower_bound; lia.
    - apply Z.div_le_upper_bound; lia. }
  assert (Ht' : t = msPerDay * day + ms) by (apply Z.div_mod; discriminate).
  clearbody day ms.
  destruct (civil_of_day day) as [[y m] d] eqn:E.
  pose proof (civil_of_day_fields _ _ _ _ E) as [Hm Hd].
  pose proof (civil_of_day_year _ _ _ _ Hday E) as Hy.
  assert (Hh : 0 <= ms / 3600000 < 24).
  { split; [apply Z.div_pos; lia | apply Z.div_lt_upper_bound; lia]. }
  assert (Hmi : 0 <= (ms / 60000) mod 60 < 60) by (apply Z.mod_pos_bound; lia).
  assert (Hs : 0 <= (ms / 1000) mod 60 < 60) by (apply Z.mod_pos_bound; lia).
  assert (Hml : 0 <= ms mod 1000 < 1000) by (apply Z.mod_pos_bound; lia).
  rewrite read_year_text by assumption.
  cbn [obind append]. rewrite expect_same. cbn [obind].
  rewrite read_digits_exact by (simpl; lia).
  cbn [obind append]. rewrite expect_same. cbn [obind].
  rewrite read_digits_exact by (simpl; lia).
  cbn [obind append]. rewrite expect_same. cbn [obind].
  rewrite read_digits_exact by (simpl; lia).
  cbn [obind append]. rewrite expect_same. cbn [obind].
  rewrite read_digits_exact by (simpl; lia).
  cbn [obind append]. rewrite expect_same. cbn [obind].
  rewrite read_digits_exact by (simpl; lia).
  cbn [obind append]. rewrite expect_same. cbn [obind].
  rewrite read_digits_exact by (simpl; lia).
  cbn [obind append]. rewrite expect_same. cbn [obind].
  rewrite (legal_civil_of_day _ _ _ _ E).
  rewrite (day_of_civil_of_day _ _ _ _ E).
  destruct (Z.ltb_spec (ms / 3600000) 24); [| lia].
  destruct (Z.ltb_spec ((ms / 60000) mod 60) 60); [| lia].
  destruct (Z.ltb_spec ((ms / 1000) mod 60) 60); [| lia].
  cbn [andb orb]. f_equal.
  rewrite Ht'. unfold msPerDay.
  clear - Hms. Z.div_mod_to_equations. lia.
Qed.

Lemma of_text_toISOString (t : Z) :
  Z.abs t <= maxTime -> of_text (toISOString t) = Instant t.
Proof.
  intros H. unfold of_text. rewrite parse_iso_toISOString by assumption.
  unfold TimeClip. destruct (Z.leb_spec (Z.abs t) maxTime); [reflexivity | lia].
Qed.

Local Open Scope js_scope.

(** ** The reducer *)

Lemma find_map {A} (p : A -> bool) (f : A -> A) (l : list A) :
  (forall x, p (f x) = p x) ->
  find p (map f l) = option_map f (find p l).
Proof.
  intros Hp. induction l as [| x l IH]; [reflexivity |].
  cbn [map find]. rewrite Hp. destruct (p x); [reflexivity | exact IH].
Qed.

Lemma find_none_map_id {A} (p : A -> bool) (f : A -> A) (l : list A) :
  (forall x, p x = false -> f x = x) ->
  find p l = None -> map f l = l.
Proof.
  intros Hf. induction l as [| x l IH]; [reflexivity |].
  cbn [map find]. destruct (p x) eqn:E; [discriminate |].
  intros H. rewrite (Hf x E), (IH H). reflexivity.
Qed.

Lemma Forall2_map_r {A B} (R : A -> B -> Prop) (f : A -> B) (l : list A) :
  (forall x, R x (f x)) -> Forall2 R l (map f l).
Proof.
  intros H. induction l; cbn [map]; constructor; auto.
Qed.

Lemma clear_messages_id (now : Date) (a : jsstring) (c : Conversation.t) :
  Conversation.id (clear_messages now a c) = Conversation.id c.
Proof. unfold clear_messages. destruct (JSString.eqb _ _); reflexivity. Qed.

Lemma add_message_id (now : Date) (cid : jsstring) (m : Message.t)
    (c : Conversation.t) :
  Conversation.id (add_message now cid m c) = Conversation.id c.
Proof. unfold add_message. destruct (JSString.eqb _ _); reflexivity. Qed.

Lemma add_message_createdAt (now : Date) (cid : jsstring) (m : Message.t)
    (c : Conversation.t) :
  Conversation.createdAt (add_message now cid m c) = Conversation.createdAt c.
Proof. unfold add_message. destruct (JSString.eqb _ _); reflexivity. Qed.

Lemma add_message_messages (now : Date) (cid : jsstring) (m : Message.t)
    (c : Conversation.t) :
  Conversation.messages (add_message now cid m c)
  = if JSString.eqb (Conversation.id c) cid
    then (Conversation.messages c ++ [m])%list
    else Conversation.messages c.
Proof. unfold add_message. destruct (JSString.eqb _ _); reflexivity. Qed.

Create Rewrite HintDb conversation.
#[local] Hint Rewrite add_message_id add_message_createdAt add_message_messages
  clear_messages_id : conversation.

(** The store states of the samples are reached through the provider's
    own operations. *)
Example dangling_state_reached :
  store (snd (setActiveConversation "gone"
                (world_of sample_state saved_storage no_service)))
  = dangling_state.
Proof. reflexivity. Qed.

Example keyed_state_reached :
  let w' := snd (setApiKey "sk-1" (world_of sample_state saved_storage no_service)) in
  store w' = keyed_state /\ localStorage w' = keyed_storage.
Proof. split; reflexivity. Qed.

(** What CLEAR_CONVERSATION does to a store, by cases on the active
    conversation. *)
Lemma reducer_clear (now : Date) (state : ZenithState) :
  let next := zenithReducer now state CLEAR_CONVERSATION in
  activeConversationId next = activeConversationId state
  /\ apiKey next = apiKey state
  /\ loading next = loading state
  /\ match activeConversation state with
     | Some c =>
         activeConversation next
         = Some (Conversation.mk (Conversation.id c) (Conversation.title c) []
                   (Conversation.createdAt c) now)
         /\ conversations next
            = map (clear_messages now (Conversation.id c)) (conversations state)
     | None => next = state
     end.
Proof.
  destruct state as [convs active key busy].
  unfold activeConversation, zenithReducer.
  cbn [activeConversationId conversations apiKey loading].
  destruct active as [a |]; [| repeat split].
  destruct (nonempty a) eqn:Ha; [| repeat split].
  cbn [activeConversationId conversations apiKey loading].
  repeat (split; [reflexivity |]). rewrite Ha.
  destruct (find _ convs) as [c |] eqn:F.
  - pose proof (find_some _ _ F) as [_ Ec]. apply JSStringFacts.eqb_eq in Ec.
    rewrite find_map, F by (intros x; rewrite clear_messages_id; reflexivity).
    cbn [option_map]. unfold clear_messages at 1.
    rewrite Ec, JSStringFacts.eqb_refl. split; reflexivity.
  - f_equal. apply find_none_map_id with (2 := F).
    intros x Hx. unfold clear_messages. rewrite Hx. reflexivity.
Qed.

(** C8. [clearConversation] with an active conversation empties its
    message list and sets its updatedAt to the current time, keeping its
    id, title and createdAt, every other conversation and the other
    fields of the state; with no active conversation it leaves the state
    as it is. *)
Theorem clearConversation_spec (w : World) :
  let now := TimeClip (clock w (reads w)) in
  let '(r, w') := clearConversation w in
  r = Ok tt
  /\ activeConversationId (store w') = activeConversationId (store w)
  /\ apiKey (store w') = apiKey (store w)
  /\ loading (store w') = loading (store w)
  /\ match activeConversation (store w) with
     | Some c =>
         activeConversation (store w')
         = Some (Conversation.mk (Conversation.id c) (Conversation.title c) []
                   (Conversation.createdAt c) now)
         /\ Forall2
              (fun before after =>
                 after =
                   if JSString.eqb (Conversation.id before) (Conversation.id c)
                   then Conversation.mk (Conversation.id before)
                          (Conversation.title before) []
                          (Conversation.createdAt before) now
                   else before)
              (conversations (store w)) (conversations (store w'))
     | None => store w' = store w
     end.
Proof.
  intros now. unfold clearConversation, dispatch. cbn [store].
  destruct (reducer_clear now (store w)) as (Ha & Hk & Hl & Hc).
  fold now. repeat (split; [assumption || reflexivity |]).
  destruct (activeConversation (store w)) as [c |]; [| exact Hc].
  destruct Hc as [Hfind Hmap]. split; [exact Hfind |].
  rewrite Hmap. apply Forall2_map_r. intros x. reflexivity.
Qed.

(** C9, as the code has it. The clear operation empties the message list
    of the active conversation and keeps its id, title and createdAt;
    its updatedAt becomes the time of the clear. *)
Theorem clear_keeps_identity_sets_updatedAt (now : Date) (state : ZenithState)
    (c : Conversation.t) :
  activeConversation state = Some c ->
  exists c',
    activeConversation (zenithReducer now state CLEAR_CONVERSATION) = Some c'
    /\ Conversation.messages c' = []
    /\ Conversation.id c' = Conversation.id c
    /\ Conversation.title c' = Conversation.title c
    /\ Conversation.createdAt c' = Conversation.createdAt c
    /\ Conversation.updatedAt c' = now.
Proof.
  intros H. destruct (reducer_clear now state) as (_ & _ & _ & Hc).
  rewrite H in Hc. destruct Hc as [Hfind _].
  eexists. split; [exact Hfind |]. repeat split.
Qed.

Lemma clear_keeps_identity_sets_updatedAt_witness :
  activeConversation sample_state = Some sample_conversation
  /\ exists c',
       activeConversation
         (zenithReducer (Instant 5000) sample_state CLEAR_CONVERSATION) = Some c'
       /\ Conversation.messages c' = []
       /\ Conversation.id c' = Conversation.id sample_conversation
       /\ Conversation.title c' = Conversation.title sample_conversation
       /\ Conversation.createdAt c' = Conversation.createdAt sample_conversation
       /\ Conversation.updatedAt c' = Instant 5000.
Proof.
  split; [reflexivity |].
  apply (clear_keeps_identity_sets_updatedAt (Instant 5000) sample_state
           sample_conversation).
  reflexivity.
Defined.

(** C9 as stated fails: a clear at time 5000 of a conversation last
    updated at time 1000 does not leave its updatedAt unchanged. *)
Lemma clear_changes_updatedAt :
  ~ (forall (now : Date) (state : ZenithState) (c : Conversation.t),
       activeConversation state = Some c ->
       exists c',
         activeConversation (zenithReducer now state CLEAR_CONVERSATION) = Some c'
         /\ Conversation.messages c' = []
         /\ Conversation.id c' = Conversation.id c
         /\ Conversation.createdAt c' = Conversation.createdAt c
         /\ Conversation.updatedAt c' = Conversation.updatedAt c).
Proof.
  intros H.
  destruct (H (Instant 5000) sample_state sample_conversation eq_refl)
    as (c' & Hfind & _ & _ & _ & Hu).
  cbv in Hfind. injection Hfind as <-. discriminate Hu.
Qed.

(** ** Title derivation *)

(** A derived title ends in a dot, so it is never the default title. *)
Lemma derived_title_not_default (s : jsstring) : s ++ "..." <> default_title.
Proof.
  intros H. apply (f_equal (@rev code_unit)) in H.
  unfold JSString.append in H. rewrite rev_app_distr in H.
  cbn in H. discriminate H.
Qed.

Lemma add_message_title (now : Date) (cid : jsstring) (m : Message.t)
    (c : Conversation.t) :
  Conversation.title (add_message now cid m c)
  = if first_message_of_untitled cid c
    then slice0 30 (Message.content m) ++ "..."
    else Conversation.title c.
Proof.
  unfold add_message, first_message_of_untitled.
  destruct (JSString.eqb (Conversation.id c) cid); cbn [andb]; [| reflexivity].
  cbn [Conversation.title]. rewrite length_app. cbn [List.length].
  rewrite andb_comm.
  destruct (Conversation.messages c); cbn [List.length Nat.add Nat.eqb andb].
  - reflexivity.
  - replace (Nat.eqb (List.length l + 1) 0) with false
      by (symmetry; apply Nat.eqb_neq; lia).
    reflexivity.
Qed.

Example title_of_first_message :
  Conversation.title
    (add_message (Instant 7) "c9"
       (Message.mk "m1" user "Explain the proof of the four colour theorem"
          (Instant 7))
       (Conversation.mk "c9" "New conversation" [] (Instant 1) (Instant 1)))
  = "Explain the proof of the four ...".
Proof. reflexivity. Qed.

(** The slice counts code units: it can keep one half of a surrogate
    pair (here U+1F600 after 29 letters). *)
Example title_splits_surrogate_pair :
  Conversation.title
    (add_message (Instant 7) "c9"
       (Message.mk "m1" user
          ("abcdefghijklmnopqrstuvwxyzabc"
           ++ [unit16 "216" "061"; unit16 "222" "000"] ++ " is a face")
          (Instant 7))
       (Conversation.mk "c9" "New conversation" [] (Instant 1) (Instant 1)))
  = "abcdefghijklmnopqrstuvwxyzabc" ++ [unit16 "216" "061"] ++ "...".
Proof. reflexivity. Qed.

Example title_of_short_first_message :
  Conversation.title
    (add_message (Instant 7) "c9" (Message.mk "m1" user "Hi" (Instant 7))
       (Conversation.mk "c9" "New conversation" [] (Instant 1) (Instant 1)))
  = "Hi...".
Proof. reflexivity. Qed.

Lemma add_message_title_changed (now : Date) (cid : jsstring) (m : Message.t)
    (c : Conversation.t) :
  JSString.eqb (Conversation.title (add_message now cid m c)) (Conversation.title c)
  = negb (first_message_of_untitled cid c).
Proof.
  rewrite add_message_title.
  destruct (first_message_of_untitled cid c) eqn:E; cbn [negb].
  - unfold first_message_of_untitled in E.
    apply andb_true_iff in E as [_ E]. apply JSStringFacts.eqb_eq in E. rewrite E.
    apply JSStringFacts.eqb_neq. apply derived_title_not_default.
  - apply JSStringFacts.eqb_refl.
Qed.

(** After an append the conversation is not one without message and
    with the default title, unless the append went elsewhere. *)
Lemma add_message_settled (now : Date) (cid target : jsstring) (m : Message.t)
    (c : Conversation.t) :
  first_message_of_untitled target (add_message now cid m c)
  = first_message_of_untitled target c
    && negb (JSString.eqb (Conversation.id c) cid).
Proof.
  unfold first_message_of_untitled, add_message.
  destruct (JSString.eqb (Conversation.id c) cid); cbn [negb].
  - cbn [Conversation.id Conversation.messages].
    rewrite length_app. cbn [List.length].
    replace (Nat.eqb (List.length (Conversation.messages c) + 1) 0) with false
      by (symmetry; apply Nat.eqb_neq; lia).
    rewrite andb_false_r. cbn [andb]. rewrite andb_false_r. reflexivity.
  - rewrite andb_true_r. reflexivity.
Qed.

Lemma title_changes_spec (calls : list Append) :
  forall c,
    title_changes calls c
    = if first_message_of_untitled (Conversation.id c) c
         && existsb (targets (Conversation.id c)) calls
      then 1%nat else 0%nat.
Proof.
  induction calls as [| [[now cid] m] rest IH]; intros c.
  - cbn. rewrite andb_false_r. reflexivity.
  - cbn [title_changes append_to existsb targets].
    rewrite add_message_title_changed, IH.
    rewrite add_message_id, add_message_settled.
    rewrite (JSStringFacts.eqb_sym cid).
    assert (Hfirst : first_message_of_untitled cid c
                     = first_message_of_untitled (Conversation.id c) c
                       && JSString.eqb (Conversation.id c) cid).
    { unfold first_message_of_untitled. rewrite JSStringFacts.eqb_refl. cbn [andb].
      destruct (JSString.eqb (Conversation.id c) cid); cbn [andb].
      - rewrite andb_true_r. reflexivity.
      - rewrite andb_false_r. reflexivity. }
    rewrite Hfirst.
    destruct (first_message_of_untitled (Conversation.id c) c),
             (JSString.eqb (Conversation.id c) cid);
      cbn [andb orb negb]; reflexivity.
Qed.

Lemma reduce_appends (calls : list Append) :
  forall state,
    conversations (reduce_all (map append_action calls) state)
    = map (fun c => fold_left append_to calls c) (conversations state).
Proof.
  unfold reduce_all.
  induction calls as [| [[now cid] m] rest IH]; intros state.
  - cbn. symmetry. apply map_id.
  - cbn [map fold_left append_action]. rewrite IH.
    cbn [zenithReducer conversations]. rewrite map_map. reflexivity.
Qed.

(** C5. An append changes the title of a conversation precisely when it
    is addressed to it, takes it from no message to one, and finds the
    default title; the new title is then [content.slice(0, 30)] followed
    by "...", where the slice is the content's first 30 code units and
    nothing else, or the whole content when it has fewer. Along any
    sequence of appends this happens once if the conversation starts
    without message and with the default title and some append is
    addressed to it, and never otherwise. *)
Theorem title_derived_once (calls : list Append) (c : Conversation.t) :
  (forall now conversationId message,
     let c' := add_message now conversationId message c in
     Conversation.title c'
     = (if first_message_of_untitled conversationId c
        then slice0 30 (Message.content message) ++ "..."
        else Conversation.title c)
     /\ JSString.eqb (Conversation.title c') (Conversation.title c)
        = negb (first_message_of_untitled conversationId c))
  /\ (forall content,
        JSString.length (slice0 30 content)
        = Nat.min 30 (JSString.length content)
        /\ exists dropped, content = slice0 30 content ++ dropped)
  /\ title_changes calls c
     = (if first_message_of_untitled (Conversation.id c) c
           && existsb (targets (Conversation.id c)) calls
        then 1%nat else 0%nat)
  /\ (forall state,
        conversations (reduce_all (map append_action calls) state)
        = map (fun c => fold_left append_to calls c) (conversations state)).
Proof.
  split; [| split; [| split]].
  - intros now cid m. split.
    + apply add_message_title.
    + apply add_message_title_changed.
  - intros content.
    destruct (JSStringFacts.slice0_prefix 30 content) as [Hlen Hsplit].
    split; [exact Hlen | exists (skipn 30 content); exact Hsplit].
  - apply title_changes_spec.
  - apply reduce_appends.
Qed.

Lemma title_derived_once_witness :
  let content : jsstring := "Explain the proof of the four colour theorem" in
  let first := Message.mk "m1" user content (Instant 7) in
  let second := Message.mk "m2" assistant "It was checked by machine."
                  (Instant 8) in
  let c := Conversation.mk "c9" "New conversation" [] (Instant 1) (Instant 1) in
  let c1 := add_message (Instant 7) "c9" first c in
  Conversation.title c1 = "Explain the proof of the four ..."
  /\ Conversation.title (add_message (Instant 8) "c9" second c1)
     = "Explain the proof of the four ..."
  /\ JSString.length content = 44%nat
  /\ JSString.length (slice0 30 content) = 30%nat
  /\ title_changes [(Instant 7, ("c9" : jsstring), first);
                    (Instant 8, ("c9" : jsstring), second)] c = 1%nat.
Proof.
  intros content first second c c1.
  destruct (title_derived_once
              [(Instant 7, ("c9" : jsstring), first);
               (Instant 8, ("c9" : jsstring), second)] c)
    as (Hone & Hslice & Hcount & _).
  destruct (title_derived_once [] c1) as (Hnext & _).
  split; [exact (proj1 (Hone (Instant 7) "c9" first)) |].
  split; [exact (proj1 (Hnext (Instant 8) "c9" second)) |].
  split; [reflexivity |].
  split; [exact (proj1 (Hslice content)) | exact Hcount].
Defined.

(** ** Persistence and start-up *)

Lemma rmap_map_ok {A B} (f : A -> result B) (g : B -> A) (l : list B) :
  Forall (fun x => f (g x) = Ok x) l -> rmap f (map g l) = Ok l.
Proof.
  induction 1 as [| x l Hx _ IH]; [reflexivity |].
  cbn [map rmap]. rewrite Hx, IH. reflexivity.
Qed.

Lemma new_Date_json_of_date (d : Date) :
  JSDate.valid d -> new_Date (Some (json_of_date d)) = Ok d.
Proof.
  intros (t & -> & Ht). cbn [json_of_date new_Date]. unfold Date_of_text.
  rewrite JSStringFacts.narrow_of_ascii, of_text_toISOString by assumption.
  reflexivity.
Qed.

Lemma as_role_role_text (r : Role) : as_role (Some (JStr (role_text r))) = Ok r.
Proof. destruct r; reflexivity. Qed.

Lemma revive_json_of_message (m : Message.t) :
  valid_message m -> revive_message (json_of_message m) = Ok m.
Proof.
  intros H. destruct m as [i r c d]. unfold valid_message in H.
  cbn [Message.createdAt] in H.
  unfold revive_message, json_of_message.
  cbn [Message.id Message.role Message.content Message.createdAt].
  change (get (Some (JObj ?f)) "createdAt") with (Ok (Some (json_of_date d))).
  cbn [rbind]. rewrite new_Date_json_of_date by assumption.
  cbn [rbind]. change (own (JObj ?f) "id") with (Some (JStr i)).
  change (own (JObj ?f) "role") with (Some (JStr (role_text r))).
  change (own (JObj ?f) "content") with (Some (JStr c)).
  rewrite as_role_role_text. reflexivity.
Qed.

Lemma revive_json_of_conversation (c : Conversation.t) :
  valid_conversation c -> revive_conversation (json_of_conversation c) = Ok c.
Proof.
  intros (Hc & Hu & Hm). destruct c as [i t ms ca ua].
  cbn [Conversation.createdAt Conversation.updatedAt Conversation.messages] in *.
  unfold revive_conversation, json_of_conversation.
  cbn [Conversation.id Conversation.title Conversation.messages
       Conversation.createdAt Conversation.updatedAt].
  change (get (Some (JObj ?f)) "createdAt") with (Ok (Some (json_of_date ca))).
  change (get (Some (JObj ?f)) "updatedAt") with (Ok (Some (json_of_date ua))).
  change (get (Some (JObj ?f)) "messages")
    with (Ok (Some (JArr (map json_of_message ms)))).
  cbn [rbind]. rewrite !new_Date_json_of_date by assumption.
  cbn [rbind map_array].
  rewrite rmap_map_ok.
  - reflexivity.
  - apply Forall_impl with (2 := Hm). apply revive_json_of_message.
Qed.

Lemma rehydrate_stringify (l : list Conversation.t) :
  Forall valid_conversation l -> rehydrate (JSON_stringify l) = Ok l.
Proof.
  intros H. unfold rehydrate, JSON_stringify. cbn [map_array].
  apply rmap_map_ok. apply Forall_impl with (2 := H).
  apply revive_json_of_conversation.
Qed.

(** Mounting on a storage whose saved list is read back as [l]. *)
Lemma mount_rehydrated (w : World) (saved : json) (l : list Conversation.t) :
  zenith_conversations (localStorage w) = Some saved ->
  rehydrate saved = Ok l ->
  fst (mount w) = Ok tt
  /\ conversations (store (snd (mount w))) = l
  /\ activeConversationId (store (snd (mount w)))
     = match l with
       | first :: _ => Some (Conversation.id first)
       | [] => None
       end.
Proof.
  intros Hs Hr. unfold mount, load. rewrite Hs, Hr. cbn [rbind].
  destruct l as [| first rest];
    (destruct (zenith_api_key (localStorage w)) as [k |];
     [destruct (nonempty k) |]); repeat split.
Qed.

(** C7. A conversation list whose Dates are time values, written as JSON
    with each Date as its ISO text and read back by the start-up code,
    is the same list: same ids, titles, roles and contents, and every
    Date the same time value; a provider mounted on a storage that holds
    the written list starts with it in its store. *)
Theorem conversations_round_trip (l : list Conversation.t) :
  Forall valid_conversation l ->
  exists l',
    rehydrate (JSON_stringify l) = Ok l'
    /\ (forall w,
          zenith_conversations (localStorage w) = Some (JSON_stringify l) ->
          conversations (store (snd (mount w))) = l')
    /\ map Conversation.id l' = map Conversation.id l
    /\ map (fun c => map Message.role (Conversation.messages c)) l'
       = map (fun c => map Message.role (Conversation.messages c)) l
    /\ map (fun c => map Message.content (Conversation.messages c)) l'
       = map (fun c => map Message.content (Conversation.messages c)) l
    /\ map Conversation.createdAt l' = map Conversation.createdAt l
    /\ map Conversation.updatedAt l' = map Conversation.updatedAt l
    /\ l' = l.
Proof.
  intros H. exists l. pose proof (rehydrate_stringify l H) as R.
  split; [exact R |]. split; [| repeat split].
  intros w Hw. apply (mount_rehydrated w _ l Hw R).
Qed.

Lemma sample_conversation_valid : Forall valid_conversation [sample_conversation].
Proof.
  assert (V : JSDate.valid (Instant 1000)).
  { exists 1000. split; [reflexivity |]. vm_compute. discriminate. }
  constructor; [| constructor].
  split; [exact V |]. split; [exact V |].
  constructor; [exact V | constructor].
Defined.

Lemma conversations_round_trip_witness :
  Forall valid_conversation [sample_conversation]
  /\ exists l',
       rehydrate (JSON_stringify [sample_conversation]) = Ok l'
       /\ (forall w,
             zenith_conversations (localStorage w)
             = Some (JSON_stringify [sample_conversation]) ->
             conversations (store (snd (mount w))) = l')
       /\ map Conversation.id l' = map Conversation.id [sample_conversation]
       /\ map (fun c => map Message.role (Conversation.messages c)) l'
          = map (fun c => map Message.role (Conversation.messages c))
              [sample_conversation]
       /\ map (fun c => map Message.content (Conversation.messages c)) l'
          = map (fun c => map Message.content (Conversation.messages c))
              [sample_conversation]
       /\ map Conversation.createdAt l' = map Conversation.createdAt [sample_conversation]
       /\ map Conversation.updatedAt l' = map Conversation.updatedAt [sample_conversation]
       /\ l' = [sample_conversation].
Proof.
  split; [exact sample_conversation_valid |].
  apply (conversations_round_trip [sample_conversation]).
  exact sample_conversation_valid.
Defined.

(** A Date that is not a time value is written as [null] and read back
    as time 0. *)
Example invalid_date_read_back :
  new_Date (Some (json_of_date InvalidDate)) = Ok (Instant 0).
Proof. reflexivity. Qed.

(** C10. Mounting the provider on a storage whose saved conversation
    list is read back as a non-empty list puts that list in the store
    and makes its first conversation the active one; on a storage with
    no saved list the store has no conversation and the active id stays
    null. *)
Theorem mount_selects_first (w : World) :
  let '(r, w') := mount w in
  match zenith_conversations (localStorage w) with
  | Some saved =>
      forall first rest,
        rehydrate saved = Ok (first :: rest) ->
        r = Ok tt
        /\ conversations (store w') = first :: rest
        /\ activeConversationId (store w') = Some (Conversation.id first)
  | None =>
      r = Ok tt
      /\ conversations (store w') = []
      /\ activeConversationId (store w') = None
  end.
Proof.
  destruct (mount w) as [r w'] eqn:E.
  destruct (zenith_conversations (localStorage w)) as [saved |] eqn:Hs.
  - intros first rest Hre.
    pose proof (mount_rehydrated w saved _ Hs Hre) as H.
    rewrite E in H. exact H.
  - unfold mount, load in E. rewrite Hs in E. cbn [rbind] in E.
    destruct (zenith_api_key (localStorage w)) as [k |];
      [destruct (nonempty k) |];
      cbn in E; injection E as <- <-; repeat split.
Qed.

Lemma mount_selects_first_witness :
  let '(r, w') := mount (world_of (initialState sample_env) keyed_storage no_service) in
  rehydrate (JSON_stringify [sample_conversation]) = Ok [sample_conversation]
  /\ r = Ok tt
  /\ conversations (store w') = [sample_conversation]
  /\ activeConversationId (store w') = Some "c1".
Proof.
  pose proof (mount_selects_first (world_of (initialState sample_env) keyed_storage no_service))
    as H.
  destruct (mount (world_of (initialState sample_env) keyed_storage no_service)) as [r w'].
  cbn [world_of localStorage keyed_storage zenith_conversations] in H.
  assert (R : rehydrate (JSON_stringify [sample_conversation])
              = Ok [sample_conversation]) by (vm_compute; reflexivity).
  split; [exact R |].
  exact (H sample_conversation [] R).
Defined.

Lemma nonempty_true (s : jsstring) : s <> "" -> nonempty s = true.
Proof.
  intros H. unfold nonempty. apply negb_true_iff. now apply JSStringFacts.eqb_neq.
Qed.

Lemma nonempty_false (s : jsstring) : s = "" -> nonempty s = false.
Proof. intros ->. reflexivity. Qed.

Lemma persist_conversations (state : ZenithState) (ls : Storage) :
  zenith_conversations (persist state ls)
  = match conversations state with
    | [] => zenith_conversations ls
    | _ => Some (JSON_stringify (conversations state))
    end.
Proof.
  unfold persist, save_api_key, save_conversations.
  destruct (nonempty (apiKey state)), (conversations state); reflexivity.
Qed.

Lemma persist_api_key (state : ZenithState) (ls : Storage) :
  zenith_api_key (persist state ls)
  = if nonempty (apiKey state) then Some (apiKey state) else zenith_api_key ls.
Proof.
  unfold persist, save_api_key, save_conversations.
  destruct (nonempty (apiKey state)), (conversations state); reflexivity.
Qed.

(** C6, as the code has it. After an operation that changes the
    conversation list and leaves it non-empty, the storage holds the
    whole list in JSON form; after one that changes the credential and
    leaves it non-empty, the storage holds the credential under its own
    key. An empty list and an empty credential are not written: what was
    stored under the key stays. *)
Theorem dispatch_persists (action : ZenithAction) (w : World) :
  let '(_, w') := dispatch action w in
  (conversations (store w') <> conversations (store w) ->
   conversations (store w') <> [] ->
   zenith_conversations (localStorage w')
   = Some (JSON_stringify (conversations (store w'))))
  /\ (apiKey (store w') <> apiKey (store w) ->
      apiKey (store w') <> "" ->
      zenith_api_key (localStorage w') = Some (apiKey (store w')))
  /\ (conversations (store w') = [] ->
      zenith_conversations (localStorage w')
      = zenith_conversations (localStorage w))
  /\ (apiKey (store w') = "" ->
      zenith_api_key (localStorage w') = zenith_api_key (localStorage w)).
Proof.
  unfold dispatch. cbn [store localStorage].
  set (next := zenithReducer _ (store w) action).
  rewrite persist_conversations, persist_api_key.
  repeat split.
  - intros _ H. destruct (conversations next); [contradiction | reflexivity].
  - intros _ H. rewrite nonempty_true by assumption. reflexivity.
  - intros H. rewrite H. reflexivity.
  - intros H. rewrite nonempty_false by assumption. reflexivity.
Qed.

Lemma dispatch_persists_witness :
  let w := world_of keyed_state keyed_storage no_service in
  let m := Message.mk "m2" user "More" (Instant 2000) in
  let '(_, w') := dispatch (ADD_MESSAGE "c1" m) w in
  let '(_, w'') := dispatch (SET_API_KEY "sk-2") w' in
  zenith_conversations (localStorage w')
  = Some (JSON_stringify (conversations (store w')))
  /\ zenith_api_key (localStorage w'') = Some "sk-2".
Proof.
  intros w m.
  pose proof (dispatch_persists (ADD_MESSAGE "c1" m) w) as H1.
  destruct (dispatch (ADD_MESSAGE "c1" m) w) as [r1 w'] eqn:E1.
  pose proof (dispatch_persists (SET_API_KEY "sk-2") w') as H2.
  destruct (dispatch (SET_API_KEY "sk-2") w') as [r2 w''] eqn:E2.
  injection E1 as _ E1. injection E2 as _ E2.
  destruct H1 as (H1 & _). destruct H2 as (_ & H2 & _).
  split.
  - apply H1; rewrite <- E1; vm_compute; discriminate.
  - subst w'' w'. apply H2; vm_compute; discriminate.
Defined.

(** C6 as stated fails for the empty credential: clearing the credential
    "sk-1" leaves "sk-1" in the storage. *)
Lemma empty_credential_not_written :
  ~ (forall (w : World) (key : jsstring),
       apiKey (store w) <> key ->
       zenith_api_key (localStorage (snd (setApiKey key w))) = Some key).
Proof.
  intros H.
  specialize (H (world_of keyed_state keyed_storage no_service) "").
  cbv in H. discriminate H. discriminate.
Qed.

(** ** The dispatcher *)

Example completion_of_greeting : first_choice_content greeting = Ok "Hello!".
Proof. reflexivity. Qed.

Example completion_without_choices :
  first_choice_content (JObj [prop "candidates" (JArr [])])
  = Throw (ErrorObject "TypeError"
             "Cannot read properties of undefined (reading '0')").
Proof. reflexivity. Qed.

Example completion_not_a_text :
  first_choice_content
    (JObj [prop "choices" (JArr [JObj [prop "message" (JObj [prop "content" JNull])]])])
  = Untyped.
Proof. reflexivity. Qed.

Example message_of_refusal : remote_error_message refusal = Ok "API key not valid".
Proof. reflexivity. Qed.

Example message_of_bare_error :
  remote_error_message (JObj [prop "error" (JStr "quota")])
  = Ok "Failed to get response from Gemini API".
Proof. reflexivity. Qed.

Example message_of_null_body :
  remote_error_message JNull
  = Throw (ErrorObject "TypeError"
             "Cannot read properties of null (reading 'error')").
Proof. reflexivity. Qed.

Example message_of_list :
  remote_error_message
    (JObj [prop "error" (JObj [prop "message" (JArr [JStr "a"; JNull; JNum "404"])])])
  = Ok "a,,404".
Proof. reflexivity. Qed.

Lemma request_reply_unfold (state : ZenithState) (cid content : jsstring)
    (w : World) :
  request_reply state cid content w
  = if negb (nonempty (apiKey state)) then
      (Throw (ErrorObject "Error"
                "Please set your Gemini API key in the settings"), w)
    else
      match find (fun c => JSString.eqb (Conversation.id c) cid)
                 (conversations state) with
      | None => (Ok tt, w)
      | Some ac =>
          match remote w (completion_request (env w) (apiKey state)
                            (outgoing_messages ac content)) with
          | Rejected e => (Throw e, w)
          | Responded _ (Unparseable e) => (Throw e, w)
          | Responded true (Parsed data) =>
              match first_choice_content data with
              | Ok text =>
                  dispatch
                    (ADD_MESSAGE cid
                       (Message.mk (ids w (reads w)) assistant text
                          (TimeClip (clock w (S (reads w))))))
                    (tick (tick w))
              | Throw e => (Throw e, tick w)
              | Untyped => (Untyped, tick w)
              end
          | Responded false (Parsed data) =>
              match remote_error_message data with
              | Ok message => (Throw (ErrorObject "Error" message), w)
              | Throw e => (Throw e, w)
              | Untyped => (Untyped, w)
              end
          end
      end.
Proof.
  unfold request_reply.
  destruct (negb (nonempty (apiKey state))); [reflexivity |].
  destruct (find _ (conversations state)) as [ac |]; [| reflexivity].
  unfold bind at 1. cbn beta iota.
  unfold bind at 1. unfold fetch_json.
  destruct (remote w _) as [e | ok body']; [reflexivity |].
  destruct body' as [e | data]; [destruct ok; reflexivity |].
  destruct ok; cbn [negb].
  - unfold bind, ret, lift, nanoid, current_Date.
    destruct (first_choice_content data); reflexivity.
  - unfold bind, ret, lift, throw, lift.
    destruct (remote_error_message data); reflexivity.
Qed.

Lemma activeConversation_inv (state : ZenithState) (c : Conversation.t) :
  activeConversation state = Some c ->
  activeConversationId state = Some (Conversation.id c)
  /\ nonempty (Conversation.id c) = true
  /\ find (fun x => JSString.eqb (Conversation.id x) (Conversation.id c))
          (conversations state) = Some c.
Proof.
  unfold activeConversation. intros H.
  destruct (activeConversationId state) as [a |]; [| discriminate].
  destruct (nonempty a) eqn:Ha; [| discriminate].
  pose proof (find_some _ _ H) as [_ E]. apply JSStringFacts.eqb_eq in E.
  subst a. auto.
Qed.

(** A request that fails in one world fails the same way in a world with
    the same service, having dispatched nothing. *)
Lemma request_reply_failure (state : ZenithState) (cid content : jsstring)
    (w : World) (e : thrown) :
  fst (request_reply state cid content w) = Throw e ->
  forall w2, same_service w w2 ->
    request_reply state cid content w2 = (Throw e, w2)
    \/ request_reply state cid content w2 = (Throw e, tick w2).
Proof.
  intros H w2 [He Hr]. rewrite request_reply_unfold in *.
  rewrite <- He, <- Hr.
  destruct (negb (nonempty (apiKey state))); [left; cbn in H; congruence |].
  destruct (find _ (conversations state)) as [ac |]; [| discriminate H].
  destruct (remote w _) as [e' | ok body'].
  { left. cbn in H. congruence. }
  destruct body' as [e' | data].
  { left. destruct ok; cbn in H; congruence. }
  destruct ok.
  - destruct (first_choice_content data); cbn in H; try discriminate H.
    right. congruence.
  - destruct (remote_error_message data); cbn in H; try discriminate H;
      left; congruence.
Qed.

Lemma entered_store (w : World) (cid content : jsstring) :
  same_service w (entered w cid content)
  /\ exists u now,
       Message.role u = user
       /\ Message.content u = content
       /\ conversations (store (entered w cid content))
          = map (add_message now cid u) (conversations (store w))
       /\ activeConversationId (store (entered w cid content))
          = activeConversationId (store w)
       /\ apiKey (store (entered w cid content)) = apiKey (store w).
Proof.
  split; [split; reflexivity |].
  eexists (Message.mk _ user content _), _.
  repeat split.
Qed.

(** The [catch] and [finally] clauses after a failure of the request. *)
Lemma failure_reported (state : ZenithState) (cid content : jsstring)
    (w2 : World) (e : thrown) :
  request_reply state cid content w2 = (Throw e, w2)
  \/ request_reply state cid content w2 = (Throw e, tick w2) ->
  exists w' a now,
    try_catch_finally (request_reply state cid content) (report_error cid)
      (dispatch (SET_LOADING false)) w2 = (Ok tt, w')
    /\ Message.role a = assistant
    /\ Message.content a = "Error: " ++ describe e
    /\ conversations (store w') = map (add_message now cid a) (conversations (store w2))
    /\ activeConversationId (store w') = activeConversationId (store w2)
    /\ apiKey (store w') = apiKey (store w2)
    /\ loading (store w') = false.
Proof.
  intros [H | H]; unfold try_catch_finally; rewrite H;
    eexists _, (Message.mk _ assistant _ _), _; repeat split.
Qed.

Lemma grown_by_two (cid : jsstring) (u a : Message.t) (t1 t2 : Date)
    (convs : list Conversation.t) :
  Forall2 (grown cid [u; a]) convs
    (map (add_message t2 cid a) (map (add_message t1 cid u) convs)).
Proof.
  rewrite map_map. apply Forall2_map_r. intros x. unfold grown.
  autorewrite with conversation.
  destruct (JSString.eqb (Conversation.id x) cid); repeat split.
  rewrite <- app_assoc. reflexivity.
Qed.

Lemma active_after_two (state next : ZenithState) (c : Conversation.t)
    (u a : Message.t) (t1 t2 : Date) :
  activeConversation state = Some c ->
  activeConversationId next = activeConversationId state ->
  conversations next
  = map (add_message t2 (Conversation.id c) a)
      (map (add_message t1 (Conversation.id c) u) (conversations state)) ->
  exists c',
    activeConversation next = Some c'
    /\ Conversation.id c' = Conversation.id c
    /\ Conversation.messages c' = (Conversation.messages c ++ [u; a])%list.
Proof.
  intros H Hid Hc. apply activeConversation_inv in H as (Ha & Hn & Hf).
  unfold activeConversation. rewrite Hid, Ha, Hn, Hc.
  rewrite !find_map, Hf by (intros x; rewrite add_message_id; reflexivity).
  cbn [option_map]. eexists. split; [reflexivity |].
  autorewrite with conversation.
  rewrite JSStringFacts.eqb_refl, <- app_assoc. split; reflexivity.
Qed.


(** Sends made from the latest render of a store with an active
    conversation. *)
Section ActiveSend.

Variables (content : jsstring) (w : World) (c : Conversation.t).
Hypothesis active : activeConversation (store w) = Some c.

(** The closure resolves the id of the active conversation and enters
    the [try] block after the two dispatches. *)
Lemma sendMessage_active :
  sendMessage (store w) content w
  = try_catch_finally
      (request_reply (store w) (Conversation.id c) content)
      (report_error (Conversation.id c))
      (dispatch (SET_LOADING false))
      (entered w (Conversation.id c) content).
Proof.
  destruct (activeConversation_inv _ _ active) as (Ha & Hn & _).
  unfold sendMessage, resolve_conversation, is_truthy.
  rewrite Ha, Hn. reflexivity.
Qed.

(** The outcome of a send, given what the [try] block leaves: the store
    after it is the entered store with one more message [a] for the
    active conversation. *)
Lemma sendMessage_appends_two (w' : World) (a : Message.t) (now : Date) :
  try_catch_finally
    (request_reply (store w) (Conversation.id c) content)
    (report_error (Conversation.id c))
    (dispatch (SET_LOADING false))
    (entered w (Conversation.id c) content) = (Ok tt, w') ->
  conversations (store w')
  = map (add_message now (Conversation.id c) a)
      (conversations (store (entered w (Conversation.id c) content))) ->
  activeConversationId (store w')
  = activeConversationId (store (entered w (Conversation.id c) content)) ->
  exists u c',
    sendMessage (store w) content w = (Ok tt, w')
    /\ (Message.role u = user /\ Message.content u = content)
    /\ activeConversation (store w') = Some c'
    /\ Conversation.id c' = Conversation.id c
    /\ Conversation.messages c' = (Conversation.messages c ++ [u; a])%list
    /\ Forall2 (grown (Conversation.id c) [u; a])
         (conversations (store w)) (conversations (store w')).
Proof.
  intros Hrun Hconv' Hact'.
  destruct (entered_store w (Conversation.id c) content)
    as (_ & u & t1 & Hur & Huc & Hconv & Hact & _).
  rewrite Hconv in Hconv'.
  destruct (active_after_two (store w) (store w') c u a t1 now active)
    as (c' & Hc' & Hid' & Hm'); [congruence | assumption |].
  exists u, c'. rewrite sendMessage_active.
  repeat split; try assumption.
  rewrite Hconv'. apply grown_by_two.
Qed.

(** When the request fails. *)
Lemma sendMessage_failure_run (e : thrown) :
  fst (request_reply (store w) (Conversation.id c) content w) = Throw e ->
  exists w' u a c',
    sendMessage (store w) content w = (Ok tt, w')
    /\ loading (store w') = false
    /\ (Message.role u = user /\ Message.content u = content)
    /\ (Message.role a = assistant
        /\ Message.content a = "Error: " ++ describe e)
    /\ activeConversation (store w') = Some c'
    /\ Conversation.id c' = Conversation.id c
    /\ Conversation.messages c' = (Conversation.messages c ++ [u; a])%list
    /\ Forall2 (grown (Conversation.id c) [u; a])
         (conversations (store w)) (conversations (store w')).
Proof.
  intros Hf.
  destruct (entered_store w (Conversation.id c) content) as (Hs & _).
  pose proof (request_reply_failure _ _ _ _ _ Hf _ Hs) as Hf2.
  destruct (failure_reported _ _ _ _ _ Hf2)
    as (w' & a & t2 & Hrun & Har & Hac & Hconv' & Hact' & _ & Hload).
  destruct (sendMessage_appends_two w' a t2 Hrun Hconv' Hact')
    as (u & c' & H).
  exists w', u, a, c'. tauto.
Qed.


End ActiveSend.

(** C1, as the code has it. When [sendMessage] is called from the latest
    render of a store that has an active conversation and the request
    fails, in credential validation, in the network call
    or in reading the response, [sendMessage] settles without exception,
    the busy flag is false, and the active conversation has received the
    user message followed by exactly one assistant message whose content
    is "Error: " followed by the description of the failure; no other
    conversation has received anything. *)
Theorem sendMessage_reports_failure (content : jsstring) (w : World)
    (c : Conversation.t) (e : thrown) :
  activeConversation (store w) = Some c ->
  fst (request_reply (store w) (Conversation.id c) content w) = Throw e ->
  exists w' u a c',
    sendMessage (store w) content w = (Ok tt, w')
    /\ loading (store w') = false
    /\ (Message.role u = user /\ Message.content u = content)
    /\ (Message.role a = assistant
        /\ Message.content a = "Error: " ++ describe e)
    /\ activeConversation (store w') = Some c'
    /\ Conversation.messages c' = (Conversation.messages c ++ [u; a])%list
    /\ Forall2 (grown (Conversation.id c) [u; a])
         (conversations (store w)) (conversations (store w')).
Proof.
  intros Hc Hf.
  destruct (sendMessage_failure_run content w c Hc e Hf)
    as (w' & u & a & c' & H1 & H2 & H3 & H4 & H5 & _ & H6 & H7).
  exists w', u, a, c'. repeat split; tauto.
Qed.

(** The failures of a request, by where they arise. *)
Lemma failure_sources (state : ZenithState) (cid content : jsstring) (w : World)
    (ac : Conversation.t) :
  let request :=
    completion_request (env w) (apiKey state) (outgoing_messages ac content) in
  (apiKey state = "" ->
   fst (request_reply state cid content w)
   = Throw (ErrorObject "Error"
              "Please set your Gemini API key in the settings"))
  /\ (apiKey state <> "" ->
      find (fun c => JSString.eqb (Conversation.id c) cid) (conversations state)
      = Some ac ->
      (forall e, remote w request = Rejected e ->
         fst (request_reply state cid content w) = Throw e)
      /\ (forall ok e, remote w request = Responded ok (Unparseable e) ->
            fst (request_reply state cid content w) = Throw e)
      /\ (forall data message,
            remote w request = Responded false (Parsed data) ->
            remote_error_message data = Ok message ->
            fst (request_reply state cid content w)
            = Throw (ErrorObject "Error" message))
      /\ (forall data e,
            remote w request = Responded false (Parsed data) ->
            remote_error_message data = Throw e ->
            fst (request_reply state cid content w) = Throw e)
      /\ (forall data e,
            remote w request = Responded true (Parsed data) ->
            first_choice_content data = Throw e ->
            fst (request_reply state cid content w) = Throw e)).
Proof.
  intros request. subst request. rewrite request_reply_unfold. split.
  - intros ->. reflexivity.
  - intros Hk Hf. rewrite (nonempty_true _ Hk), Hf. cbn [negb].
    repeat split.
    + intros e ->. reflexivity.
    + intros ok e ->. destruct ok; reflexivity.
    + intros data message -> ->. reflexivity.
    + intros data e -> ->. reflexivity.
    + intros data e -> ->. reflexivity.
Qed.

Lemma sendMessage_reports_failure_witness :
  let w := world_of keyed_state keyed_storage refusing_service in
  activeConversation (store w) = Some sample_conversation
  /\ fst (request_reply (store w) "c1" "More" w)
     = Throw (ErrorObject "Error" "API key not valid")
  /\ exists w' u a c',
       sendMessage (store w) "More" w = (Ok tt, w')
       /\ loading (store w') = false
       /\ (Message.role u = user /\ Message.content u = "More")
       /\ (Message.role a = assistant
           /\ Message.content a = "Error: API key not valid")
       /\ activeConversation (store w') = Some c'
       /\ Conversation.messages c'
          = (Conversation.messages sample_conversation ++ [u; a])%list
       /\ Forall2 (grown "c1" [u; a])
            (conversations (store w)) (conversations (store w')).
Proof.
  intros w.
  split; [reflexivity |]. split; [reflexivity |].
  apply (sendMessage_reports_failure "More" w sample_conversation
           (ErrorObject "Error" "API key not valid"));
    reflexivity.
Defined.

(** C1 as stated fails when the active id names no conversation: the
    request fails for want of a credential, the error message is
    dispatched, and no conversation receives it. *)
Lemma dangling_failure_not_appended :
  ~ (forall (w : World) (content cid : jsstring) (e : thrown),
       resolve_conversation (store w) = Ok cid ->
       fst (request_reply (store w) cid content w) = Throw e ->
       exists w',
         sendMessage (store w) content w = (Ok tt, w')
         /\ loading (store w') = false
         /\ assistant_count (store w') = S (assistant_count (store w))).
Proof.
  intros H.
  destruct (H (world_of dangling_state saved_storage no_service) "Hi" "gone"
              (ErrorObject "Error"
                 "Please set your Gemini API key in the settings")
              eq_refl eq_refl) as (w' & Hrun & _ & Hcount).
  cbv in Hrun. injection Hrun as <-. cbv in Hcount. discriminate Hcount.
Qed.

(** C4. With an active conversation and no credential, [sendMessage],
    called from the latest render, settles without exception, the busy flag is false, and the active
    conversation has two more messages: the user message, then an
    assistant message carrying the error. *)
Theorem sendMessage_without_credential (content : jsstring) (w : World)
    (c : Conversation.t) :
  activeConversation (store w) = Some c ->
  apiKey (store w) = "" ->
  exists w' u a c',
    sendMessage (store w) content w = (Ok tt, w')
    /\ loading (store w') = false
    /\ (Message.role u = user /\ Message.content u = content)
    /\ (Message.role a = assistant
        /\ Message.content a
           = "Error: Please set your Gemini API key in the settings")
    /\ activeConversation (store w') = Some c'
    /\ Conversation.id c' = Conversation.id c
    /\ Conversation.messages c' = (Conversation.messages c ++ [u; a])%list
    /\ List.length (Conversation.messages c')
       = (List.length (Conversation.messages c) + 2)%nat.
Proof.
  intros Hc Hk.
  destruct (failure_sources (store w) (Conversation.id c) content w c)
    as [Hmiss _].
  destruct (sendMessage_failure_run content w c Hc _ (Hmiss Hk))
    as (w' & u & a & c' & H1 & H2 & H3 & H4 & H5 & H6 & H7 & _).
  exists w', u, a, c'. repeat split; try tauto.
  rewrite H7, length_app. reflexivity.
Qed.

Lemma sendMessage_without_credential_witness :
  let w := world_of sample_state saved_storage no_service in
  activeConversation (store w) = Some sample_conversation
  /\ apiKey (store w) = ""
  /\ exists w' u a c',
       sendMessage (store w) "More" w = (Ok tt, w')
       /\ loading (store w') = false
       /\ (Message.role u = user /\ Message.content u = "More")
       /\ (Message.role a = assistant
           /\ Message.content a
              = "Error: Please set your Gemini API key in the settings")
       /\ activeConversation (store w') = Some c'
       /\ Conversation.id c' = Conversation.id sample_conversation
       /\ Conversation.messages c'
          = (Conversation.messages sample_conversation ++ [u; a])%list
       /\ List.length (Conversation.messages c')
          = (List.length (Conversation.messages sample_conversation) + 2)%nat.
Proof.
  intros w.
  split; [reflexivity |]. split; [reflexivity |].
  apply (sendMessage_without_credential "More" w sample_conversation);
    reflexivity.
Defined.



(** ** Sending with no active conversation *)

(** With no active id and no conversation in the closure's state, the
    new conversation is dispatched and the lookup of its id in the
    closure's list throws before anything is appended. *)
Lemma sendMessage_first_send (content : jsstring) (w : World) :
  is_truthy (activeConversationId (store w)) = false ->
  conversations (store w) = [] ->
  exists w' created,
    sendMessage (store w) content w
    = (Throw (cannot_read "undefined" "id"), w')
    /\ conversations (store w') = [created]
    /\ Conversation.messages created = []
    /\ activeConversationId (store w') = Some (Conversation.id created)
    /\ loading (store w') = loading (store w).
Proof.
  intros Ha Hc. unfold sendMessage, resolve_conversation.
  rewrite Ha. cbn [negb].
  assert (R : match activeConversationId (store w) with
              | Some id =>
                  if nonempty id then Ok id
                  else match last_of (conversations (store w)) with
                       | Some c => Ok (Conversation.id c)
                       | None => Throw (cannot_read "undefined" "id")
                       end
              | None =>
                  match last_of (conversations (store w)) with
                  | Some c => Ok (Conversation.id c)
                  | None => Throw (cannot_read "undefined" "id")
                  end
              end = Throw (cannot_read "undefined" "id")).
  { unfold is_truthy in Ha. rewrite Hc.
    destruct (activeConversationId (store w)) as [a |]; [rewrite Ha |];
      reflexivity. }
  rewrite R.
  eexists _, (Conversation.mk _ default_title [] _ _).
  unfold bind, createNewConversation, bind, nanoid, current_Date, dispatch, lift.
  cbn [store tick reads clock ids zenithReducer conversations
       activeConversationId loading Conversation.id Conversation.messages].
  rewrite Hc. repeat split.
Qed.

(** C2 fails on the first send of a fresh store, here one with a
    credential and a service that answers: the conversation is created
    and made active, [sendMessage] rejects with a TypeError, and the new
    conversation has no message. *)
Theorem first_send_rejects :
  let w := world_of (initialState keyed_env) empty_storage greeting_service in
  let '(r, w') := sendMessage (store w) "Hello" w in
  r = Throw (ErrorObject "TypeError"
               "Cannot read properties of undefined (reading 'id')")
  /\ conversations (store w')
     = [Conversation.mk "id-a" "New conversation" []
          (Instant 5001) (Instant 5002)]
  /\ activeConversationId (store w') = Some "id-a".
Proof. cbv. repeat split. Qed.

(* ================================================================= *)
(** * Further properties *)

(** ** The reducer: order, growth, selection *)

Lemma append_to_id (a : Append) (c : Conversation.t) :
  Conversation.id (append_to c a) = Conversation.id c.
Proof. destruct a as [[now cid] m]. apply add_message_id. Qed.

Lemma fold_append_id (calls : list Append) :
  forall c, Conversation.id (fold_left append_to calls c) = Conversation.id c.
Proof.
  induction calls as [| a rest IH]; intros c; [reflexivity |].
  cbn [fold_left]. rewrite IH. apply append_to_id.
Qed.

Lemma fold_append_messages (calls : list Append) :
  forall c,
    Conversation.messages (fold_left append_to calls c)
    = (Conversation.messages c ++ addressed (Conversation.id c) calls)%list.
Proof.
  unfold addressed.
  induction calls as [| [[now cid] m] rest IH]; intros c.
  - cbn. symmetry. apply app_nil_r.
  - cbn [fold_left append_to filter targets]. rewrite IH.
    rewrite add_message_id, add_message_messages.
    rewrite (JSStringFacts.eqb_sym cid).
    destruct (JSString.eqb (Conversation.id c) cid); [| reflexivity].
    cbn [map snd]. rewrite <- app_assoc. reflexivity.
Qed.

Lemma fold_append_createdAt (calls : list Append) :
  forall c,
    Conversation.createdAt (fold_left append_to calls c)
    = Conversation.createdAt c.
Proof.
  induction calls as [| [[now cid] m] rest IH]; intros c; [reflexivity |].
  cbn [fold_left append_to]. rewrite IH. apply add_message_createdAt.
Qed.

(** Appends keep the order of the calls: after any sequence of
    ADD_MESSAGE actions every conversation has its id, its createdAt and
    its old messages, followed by the messages addressed to its id in
    the order they were dispatched. *)
Theorem appends_keep_call_order (calls : list Append) (state : ZenithState) :
  Forall2
    (fun before after =>
       Conversation.id after = Conversation.id before
       /\ Conversation.createdAt after = Conversation.createdAt before
       /\ Conversation.messages after
          = (Conversation.messages before
             ++ addressed (Conversation.id before) calls)%list)
    (conversations state)
    (conversations (reduce_all (map append_action calls) state)).
Proof.
  rewrite reduce_appends. apply Forall2_map_r. intros c. split; [| split].
  - apply fold_append_id.
  - apply fold_append_createdAt.
  - apply fold_append_messages.
Qed.

Lemma reducer_ids (now : Date) (state : ZenithState) (action : ZenithAction) :
  (forall payload, action <> SET_CONVERSATIONS payload) ->
  map Conversation.id (conversations (zenithReducer now state action))
  = (map Conversation.id (conversations state)
     ++ match action with
        | CREATE_CONVERSATION payload => [Conversation.id payload]
        | _ => []
        end)%list.
Proof.
  intros H. destruct action; cbn [zenithReducer conversations].
  - exfalso. exact (H payload eq_refl).
  - symmetry. apply app_nil_r.
  - rewrite map_app. reflexivity.
  - rewrite map_map, app_nil_r. apply map_ext.
    intros c. apply add_message_id.
  - rewrite app_nil_r.
    destruct (activeConversationId state) as [a |]; [| reflexivity].
    destruct (nonempty a); [| reflexivity].
    cbn [conversations]. rewrite map_map. apply map_ext.
    intros c. apply clear_messages_id.
  - symmetry. apply app_nil_r.
  - symmetry. apply app_nil_r.
Qed.

(** The conversation list only grows at its end: along any sequence of
    actions without SET_CONVERSATIONS the ids before are a prefix of the
    ids after, one more id for each CREATE_CONVERSATION. *)
Theorem conversations_only_appended (steps : list (Date * ZenithAction))
    (state : ZenithState) :
  Forall (fun step => forall payload, snd step <> SET_CONVERSATIONS payload)
         steps ->
  map Conversation.id (conversations (reduce_all steps state))
  = (map Conversation.id (conversations state)
     ++ flat_map (fun step =>
                    match snd step with
                    | CREATE_CONVERSATION payload => [Conversation.id payload]
                    | _ => []
                    end) steps)%list.
Proof.
  unfold reduce_all. revert state.
  induction steps as [| [now action] rest IH]; intros state H.
  - cbn. symmetry. apply app_nil_r.
  - inversion H as [| ? ? Ha Hrest]; subst.
    cbn [fold_left flat_map snd]. rewrite (IH _ Hrest).
    rewrite reducer_ids by exact Ha. rewrite <- app_assoc. reflexivity.
Qed.

Lemma conversations_only_appended_witness :
  let steps :=
    [(Instant 2000, ADD_MESSAGE "c1" (Message.mk "m2" user "More" (Instant 2000)));
     (Instant 3000,
      CREATE_CONVERSATION
        (Conversation.mk "c2" "New conversation" [] (Instant 3000) (Instant 3000)));
     (Instant 4000, CLEAR_CONVERSATION)] in
  map Conversation.id (conversations (reduce_all steps sample_state))
  = [("c1" : jsstring); ("c2" : jsstring)].
Proof.
  intros steps.
  apply (conversations_only_appended steps sample_state).
  repeat constructor; intros payload; discriminate.
Defined.

Lemma find_exists {A} (p : A -> bool) (l : list A) :
  (exists x, In x l /\ p x = true) -> find p l <> None.
Proof.
  intros (x & Hin & Hp) H. exact (eq_true_false_abs _ Hp (find_none _ _ H x Hin)).
Qed.

Lemma find_map_some {A} (p : A -> bool) (f : A -> A) (l : list A) :
  (forall x, p (f x) = p x) -> find p l <> None -> find p (map f l) <> None.
Proof.
  intros Hp H. rewrite find_map by assumption.
  destruct (find p l); [discriminate | contradiction].
Qed.

(** The selection stays resolved: when the active id names a
    conversation of the list, it still does after every action that
    neither replaces the list nor selects an unknown or empty id; and
    CREATE_CONVERSATION with a non-empty id always leaves a resolved
    selection. *)
Theorem selection_stays_resolved (now : Date) (state : ZenithState)
    (action : ZenithAction) :
  keeps_selection state action ->
  (activeConversation state <> None
   \/ exists payload, action = CREATE_CONVERSATION payload) ->
  activeConversation (zenithReducer now state action) <> None.
Proof.
  intros Hk Hsel. unfold activeConversation in *.
  destruct action; cbn [keeps_selection] in Hk;
    cbn [zenithReducer activeConversationId conversations].
  - contradiction.
  - destruct Hk as (Hn & c & Hin & Hid). rewrite Hn.
    apply find_exists. exists c. split; [exact Hin |].
    rewrite Hid. apply JSStringFacts.eqb_refl.
  - rewrite Hk. apply find_exists. exists payload. split.
    + apply in_or_app. right. left. reflexivity.
    + apply JSStringFacts.eqb_refl.
  - destruct Hsel as [Hsel | [p Hp]]; [| discriminate].
    destruct (activeConversationId state) as [a |]; [| contradiction].
    destruct (nonempty a); [| contradiction].
    apply find_map_some; [| exact Hsel].
    intros x. rewrite add_message_id. reflexivity.
  - destruct Hsel as [Hsel | [p Hp]]; [| discriminate].
    destruct (activeConversationId state) as [a |] eqn:Ea; [| contradiction].
    destruct (nonempty a) eqn:Hn; [| contradiction].
    cbn [activeConversationId conversations]. rewrite Hn.
    apply find_map_some; [| exact Hsel].
    intros x. rewrite clear_messages_id. reflexivity.
  - destruct Hsel as [Hsel | [p Hp]]; [exact Hsel | discriminate].
  - destruct Hsel as [Hsel | [p Hp]]; [exact Hsel | discriminate].
Qed.

Lemma selection_stays_resolved_witness :
  activeConversation
    (zenithReducer (Instant 3000) dangling_state
       (CREATE_CONVERSATION
          (Conversation.mk "c2" "New conversation" []
             (Instant 3000) (Instant 3000)))) <> None.
Proof.
  apply (selection_stays_resolved (Instant 3000) dangling_state
           (CREATE_CONVERSATION
              (Conversation.mk "c2" "New conversation" []
                 (Instant 3000) (Instant 3000)))).
  - reflexivity.
  - right. eexists. reflexivity.
Defined.

(** ** Dates stay time values, and what is saved reads back *)

Lemma TimeClip_valid (t : Z) : Z.abs t <= maxTime -> JSDate.valid (TimeClip t).
Proof.
  intros H. exists t. split; [| exact H].
  unfold TimeClip. destruct (Z.leb_spec (Z.abs t) maxTime); [reflexivity | lia].
Qed.

Lemma add_message_valid (now : Date) (cid : jsstring) (m : Message.t)
    (c : Conversation.t) :
  JSDate.valid now -> valid_message m -> valid_conversation c ->
  valid_conversation (add_message now cid m c).
Proof.
  intros Hn Hm (Hc & Hu & Hms). unfold add_message.
  destruct (JSString.eqb _ _); [| repeat split; assumption].
  repeat split; cbn; try assumption.
  apply Forall_app. split; [assumption | constructor; [assumption | constructor]].
Qed.

Lemma clear_messages_valid (now : Date) (a : jsstring) (c : Conversation.t) :
  JSDate.valid now -> valid_conversation c ->
  valid_conversation (clear_messages now a c).
Proof.
  intros Hn (Hc & Hu & Hms). unfold clear_messages.
  destruct (JSString.eqb _ _); repeat split; cbn; try assumption.
  constructor.
Qed.

Lemma reducer_valid (now : Date) (state : ZenithState) (action : ZenithAction) :
  JSDate.valid now -> valid_payload action ->
  Forall valid_conversation (conversations state) ->
  Forall valid_conversation (conversations (zenithReducer now state action)).
Proof.
  intros Hn Hp Hs.
  destruct action; cbn [valid_payload] in Hp;
    cbn [zenithReducer conversations]; try assumption.
  - apply Forall_app. split; [assumption | constructor; [assumption | constructor]].
  - apply Forall_map. apply Forall_impl with (2 := Hs).
    intros c. now apply add_message_valid.
  - destruct (activeConversationId state) as [a |]; [| assumption].
    destruct (nonempty a); [| assumption].
    cbn [conversations]. apply Forall_map. apply Forall_impl with (2 := Hs).
    intros c. now apply clear_messages_valid.
Qed.

(** What the provider saves can be read back. When every Date of the
    store is a time value, the clock is in range and the action carries
    time values, a dispatch that changes the conversation list and
    leaves it non-empty stores a value that start-up reads back as the
    very list of the store; a provider mounted on that storage starts
    with it. *)
Theorem saved_list_reads_back (action : ZenithAction) (w : World) :
  Z.abs (clock w (reads w)) <= maxTime ->
  valid_payload action ->
  Forall valid_conversation (conversations (store w)) ->
  let w' := snd (dispatch action w) in
  conversations (store w') <> conversations (store w) ->
  conversations (store w') <> [] ->
  exists saved,
    zenith_conversations (localStorage w') = Some saved
    /\ rehydrate saved = Ok (conversations (store w'))
    /\ forall w2,
         localStorage w2 = localStorage w' ->
         conversations (store (snd (mount w2))) = conversations (store w').
Proof.
  intros Hclock Hp Hs w' _ Hne. subst w'. unfold dispatch in *.
  cbn [snd store localStorage] in *.
  set (next := zenithReducer _ (store w) action) in *.
  assert (Hv : Forall valid_conversation (conversations next)).
  { apply reducer_valid; [apply TimeClip_valid |..]; assumption. }
  exists (JSON_stringify (conversations next)).
  rewrite persist_conversations.
  pose proof (rehydrate_stringify _ Hv) as R.
  split; [destruct (conversations next); [contradiction | reflexivity] |].
  split; [exact R |].
  intros w2 H2. refine (proj1 (proj2 (mount_rehydrated w2 _ _ _ R))).
  rewrite H2, persist_conversations.
  destruct (conversations next); [contradiction | reflexivity].
Qed.

Lemma saved_list_reads_back_witness :
  let w := steady_world sample_state saved_storage no_service in
  let action := ADD_MESSAGE "c1" (Message.mk "m2" user "More" (Instant 2000)) in
  let w' := snd (dispatch action w) in
  exists saved,
    zenith_conversations (localStorage w') = Some saved
    /\ rehydrate saved = Ok (conversations (store w'))
    /\ forall w2,
         localStorage w2 = localStorage w' ->
         conversations (store (snd (mount w2))) = conversations (store w').
Proof.
  intros w action.
  apply (saved_list_reads_back action w).
  - vm_compute. discriminate.
  - exists 2000. split; [reflexivity | vm_compute; discriminate].
  - exact sample_conversation_valid.
  - vm_compute. discriminate.
  - vm_compute. discriminate.
Defined.

(** ** Start-up: the credential *)

Lemma mount_credential (w : World) :
  fst (mount w) = Ok tt ->
  let key :=
    match zenith_api_key (localStorage w) with
    | Some saved =>
        if nonempty saved then saved
        else or_else (VITE_GEMINI_API_KEY (env w)) ""
    | None => or_else (VITE_GEMINI_API_KEY (env w)) ""
    end in
  apiKey (store (snd (mount w))) = key
  /\ (key <> "" -> zenith_api_key (localStorage (snd (mount w))) = Some key).
Proof.
  unfold mount, load.
  destruct (zenith_conversations (localStorage w)) as [saved |];
    [destruct (rehydrate saved) as [[| first rest] | e |] |];
    cbn [rbind fst]; try discriminate; intros _;
    (destruct (zenith_api_key (localStorage w)) as [k |] eqn:Ek;
     [destruct (nonempty k) eqn:Hk |]);
    cbn [app dispatch_all]; unfold bind, ret; cbn [dispatch snd store
      zenithReducer apiKey localStorage initialState];
    rewrite ?persist_api_key; cbn [apiKey].
  all: try (rewrite Hk; split; [reflexivity | intros _; reflexivity]).
  all: split; [reflexivity |]; intros H;
    rewrite ?(nonempty_true _ H), ?Ek; try reflexivity.
  all: cbn [initialState apiKey]; rewrite (nonempty_true _ H); reflexivity.
Qed.

(** The credential a provider starts with, when start-up does not fail:
    the saved one if there is a non-empty one, else the default of the
    build (or the empty text); and if it is non-empty, the storage holds
    it afterwards. *)
Theorem mount_restores_credential (w : World) :
  fst (mount w) = Ok tt ->
  let key :=
    match zenith_api_key (localStorage w) with
    | Some saved =>
        if nonempty saved then saved
        else or_else (VITE_GEMINI_API_KEY (env w)) ""
    | None => or_else (VITE_GEMINI_API_KEY (env w)) ""
    end in
  apiKey (store (snd (mount w))) = key
  /\ (key <> "" -> zenith_api_key (localStorage (snd (mount w))) = Some key).
Proof. exact (mount_credential w). Qed.

Lemma mount_restores_credential_witness :
  let w := world_of (initialState keyed_env) keyed_storage no_service in
  fst (mount w) = Ok tt
  /\ apiKey (store (snd (mount w))) = "sk-1"
  /\ zenith_api_key (localStorage (snd (mount w))) = Some "sk-1".
Proof.
  intros w.
  assert (Hok : fst (mount w) = Ok tt) by (vm_compute; reflexivity).
  split; [exact Hok |].
  destruct (mount_restores_credential w Hok) as [H1 H2].
  split; [exact H1 |]. apply H2. vm_compute. discriminate.
Defined.

(** Clearing the credential does not survive a reload: after
    [setApiKey ""] on a provider whose non-empty credential was saved,
    the store has no credential, and a provider mounted on the storage
    left behind starts with the old one. *)
Theorem cleared_credential_returns (w w2 : World) (old : jsstring) :
  zenith_api_key (localStorage w) = Some old ->
  old <> "" ->
  localStorage w2 = localStorage (snd (setApiKey "" w)) ->
  fst (mount w2) = Ok tt ->
  apiKey (store (snd (setApiKey "" w))) = ""
  /\ apiKey (store (snd (mount w2))) = old.
Proof.
  intros Hold Hne Hls Hok. split; [reflexivity |].
  destruct (mount_credential w2 Hok) as [H _]. rewrite H, Hls.
  unfold setApiKey, dispatch. cbn [snd localStorage].
  rewrite persist_api_key. cbn [zenithReducer apiKey].
  change (nonempty "") with false. cbv iota.
  rewrite Hold, (nonempty_true _ Hne). reflexivity.
Qed.

Lemma cleared_credential_returns_witness :
  let w := world_of keyed_state keyed_storage no_service in
  let w2 := world_of (initialState sample_env)
              (localStorage (snd (setApiKey "" w))) no_service in
  apiKey (store (snd (setApiKey "" w))) = ""
  /\ apiKey (store (snd (mount w2))) = "sk-1".
Proof.
  intros w w2.
  apply (cleared_credential_returns w w2 "sk-1").
  - reflexivity.
  - discriminate.
  - reflexivity.
  - vm_compute. reflexivity.
Defined.

(** ** Start-up: saved data of another shape *)

(** A saved conversation entry that is not a list makes start-up fail
    with a TypeError while the loading effect reads it, before anything
    is dispatched: the store stays the initial state, so a saved
    credential is not restored and the credential is that of the build
    environment, or empty. *)
Theorem mount_fails_on_non_list (w : World) (parsed : json) :
  zenith_conversations (localStorage w) = Some parsed ->
  (forall elems, parsed <> JArr elems) ->
  (exists message,
     load (localStorage w) = Throw (ErrorObject "TypeError" message)
     /\ fst (mount w) = Throw (ErrorObject "TypeError" message))
  /\ store (snd (mount w)) = initialState (env w)
  /\ apiKey (store (snd (mount w)))
     = or_else (VITE_GEMINI_API_KEY (env w)) "".
Proof.
  intros Hs Hn.
  assert (H : exists message,
            load (localStorage w) = Throw (ErrorObject "TypeError" message)).
  { unfold load, rehydrate. rewrite Hs.
    destruct parsed; cbn [map_array rbind]; try (eexists; reflexivity).
    exfalso. exact (Hn elems eq_refl). }
  destruct H as [message H]. unfold mount. rewrite H.
  split; [exists message; split; reflexivity |].
  split; reflexivity.
Qed.

Lemma mount_fails_on_non_list_witness :
  let w := world_of (initialState sample_env)
             {| zenith_conversations := Some (JObj []);
                zenith_api_key := Some "sk-1" |} no_service in
  (exists message,
     load (localStorage w) = Throw (ErrorObject "TypeError" message)
     /\ fst (mount w) = Throw (ErrorObject "TypeError" message))
  /\ store (snd (mount w)) = initialState sample_env
  /\ apiKey (store (snd (mount w))) = "".
Proof.
  intros w.
  apply (mount_fails_on_non_list w (JObj [])).
  - reflexivity.
  - intros elems. discriminate.
Defined.

(** A saved conversation that is an object without a messages list
    makes the whole start-up reading fail with a TypeError, whatever
    else the saved list holds after it and whatever its other fields,
    provided its two dates are absent, [null] or texts. *)
Theorem revive_needs_messages (fields : list (jsstring * json)) :
  (forall elems, lookup "messages" fields <> Some (JArr elems)) ->
  (exists d, new_Date (lookup "createdAt" fields) = Ok d) ->
  (exists d, new_Date (lookup "updatedAt" fields) = Ok d) ->
  forall before after,
    Forall (fun j => exists c, revive_conversation j = Ok c) before ->
    exists message,
      rehydrate (JArr (before ++ JObj fields :: after))
      = Throw (ErrorObject "TypeError" message).
Proof.
  intros Hm [d1 H1] [d2 H2] before after Hb.
  assert (Hc : exists message,
             revive_conversation (JObj fields)
             = Throw (ErrorObject "TypeError" message)).
  { unfold revive_conversation. cbn [get rbind]. rewrite H1, H2. cbn [rbind].
    destruct (lookup "messages" fields) as [[| | | | elems |] |];
      cbn [map_array rbind]; try (eexists; reflexivity).
    exfalso. exact (Hm elems eq_refl). }
  destruct Hc as [message Hc]. exists message.
  unfold rehydrate. cbn [map_array].
  induction Hb as [| j rest [c Hj] _ IH]; cbn [app rmap].
  - rewrite Hc. reflexivity.
  - rewrite Hj. cbn [rbind]. rewrite IH. reflexivity.
Qed.

Lemma revive_needs_messages_witness :
  exists message,
    rehydrate (JArr ([json_of_conversation sample_conversation]
                     ++ JObj [prop "id" (JStr "c2"); prop "title" (JStr "Draft")] :: []))
    = Throw (ErrorObject "TypeError" message).
Proof.
  apply (revive_needs_messages [prop "id" (JStr "c2"); prop "title" (JStr "Draft")]).
  - intros elems. discriminate.
  - eexists. reflexivity.
  - eexists. reflexivity.
  - constructor; [| constructor]. eexists. vm_compute. reflexivity.
Defined.

(** ** The dispatcher: every way through the [try] block *)

Ltac try_block_facts :=
  repeat split;
  try (left; reflexivity); try (right; reflexivity);
  try (intros; congruence);
  try (match goal with
       | H : Some _ = Some _ |- _ => injection H as <- <-
       end; cbn; eauto).

Ltac try_block_case appended :=
  lazymatch appended with
  | true =>
      eexists _, _, (Some (_, Message.mk _ assistant _ _));
      (split; [reflexivity |]); try_block_facts
  | false =>
      eexists _, _, None; (split; [reflexivity |]); try_block_facts
  end.

(** ToString never leaves the typed program. *)
Lemma to_string_typed : forall v : json, to_string v <> Untyped.
Proof.
  fix IH 1. intros [| [|] | text | s | elems | fields]; cbn [to_string];
    try discriminate.
  - revert elems. fix IHl 1. intros [| x rest]; [discriminate |].
    assert (Hx : (match x return result jsstring with
                  | JNull => Ok ""
                  | _ => to_string x
                  end) <> Untyped)
      by (pose proof (IH x) as H0; destruct x; try discriminate; exact H0).
    destruct (match x return result jsstring with
              | JNull => Ok ""
              | _ => to_string x
              end) as [sx | e |]; [| discriminate | contradiction].
    cbn [rbind]. pose proof (IHl rest) as Hr.
    destruct rest as [| y rest']; [discriminate |].
    destruct ((fix join (l : list json) : result jsstring :=
                 match l with
                 | [] => Ok ""
                 | x :: rest =>
                     let? s := match x return result jsstring with
                               | JNull => Ok ""
                               | _ => to_string x
                               end in
                     match rest with
                     | [] => Ok s
                     | _ => let? r := join rest in Ok (s ++ "," ++ r)
                     end
                 end) (y :: rest')) as [sr | e |];
      [discriminate | discriminate | contradiction].
  - destruct (lookup "toString" fields); discriminate.
Qed.

Lemma remote_error_message_typed (data : json) :
  remote_error_message data <> Untyped.
Proof.
  unfold remote_error_message.
  destruct (get (Some data) "error") as [error | e |] eqn:E1; cbn [rbind];
    [| discriminate |].
  - destruct (get_optional error "message") as [message | e |] eqn:E2;
      cbn [rbind]; [| discriminate |].
    + destruct message as [v |]; [| discriminate].
      destruct (truthy (Some v)); [apply to_string_typed | discriminate].
    + destruct error as [[| | | | |] |]; discriminate E2.
  - destruct data; discriminate E1.
Qed.

(** Under a typed service the content read from a success body is a
    string or the reading throws. *)
Lemma first_choice_content_typed (w : World) (request : Request) (data : json) :
  typed_service w ->
  remote w request = Responded true (Parsed data) ->
  first_choice_content data <> Untyped.
Proof.
  intros Ht Hr. unfold first_choice_content.
  destruct (first_choice_value data) as [content | e |] eqn:E; cbn [rbind].
  - destruct (Ht _ _ _ Hr E) as [text ->]. discriminate.
  - discriminate.
  - exfalso. unfold first_choice_value in E.
    destruct (get (Some data) "choices") as [choices | |] eqn:E1;
      cbn [rbind] in E; try discriminate E;
      [| destruct data; discriminate E1].
    destruct (get_first choices) as [choice | |] eqn:E2;
      cbn [rbind] in E; try discriminate E;
      [| destruct choices as [[| | | [|] | |] |]; discriminate E2].
    destruct (get choice "message") as [message | |] eqn:E3;
      cbn [rbind] in E; try discriminate E;
      [| destruct choice as [[| | | | |] |]; discriminate E3].
    destruct message as [[| | | | |] |]; discriminate E.
Qed.

(** What the [try], [catch] and [finally] clauses do to a world, whatever
    the closure's state and the service: they never throw; they append
    at most one message, an assistant message for the resolved id; the
    busy flag is false when they end; with no conversation of that id
    in the closure's state the service is not asked and they settle;
    under a typed service they settle. *)
Lemma try_block_outcome (state : ZenithState) (cid content : jsstring)
    (w2 : World) :
  exists r w' follow,
    try_catch_finally (request_reply state cid content) (report_error cid)
      (dispatch (SET_LOADING false)) w2 = (r, w')
    /\ (r = Ok tt \/ r = Untyped)
    /\ conversations (store w')
       = match follow with
         | Some (now, a) =>
             map (add_message now cid a) (conversations (store w2))
         | None => conversations (store w2)
         end
    /\ (forall now a, follow = Some (now, a) ->
          Message.role a = assistant
          /\ (exists k, now = TimeClip (clock w2 k))
          /\ (exists k, Message.createdAt a = TimeClip (clock w2 k)))
    /\ activeConversationId (store w') = activeConversationId (store w2)
    /\ apiKey (store w') = apiKey (store w2)
    /\ (r = Ok tt -> loading (store w') = false)
    /\ (r = Ok tt ->
        find (fun c => JSString.eqb (Conversation.id c) cid) (conversations state)
        <> None ->
        follow <> None)
    /\ (find (fun c => JSString.eqb (Conversation.id c) cid) (conversations state)
        = None -> r = Ok tt)
    /\ clock w' = clock w2
    /\ loading (store w') = false
    /\ (typed_service w2 -> r = Ok tt).
Proof.
  unfold try_catch_finally. rewrite request_reply_unfold.
  destruct (negb (nonempty (apiKey state))); [try_block_case true |].
  destruct (find _ (conversations state)) as [ac |]; [| try_block_case false].
  destruct (remote w2 _) as [e | ok body'] eqn:Hrem; [try_block_case true |].
  destruct body' as [e | data]; [destruct ok; try_block_case true |].
  destruct ok.
  - destruct (first_choice_content data) as [text | e |] eqn:Hc;
      [try_block_case true | try_block_case true | try_block_case false].
    intros Ht. exfalso.
    exact (first_choice_content_typed _ _ _ Ht Hrem Hc).
  - destruct (remote_error_message data) as [message | e |] eqn:Hm;
      [try_block_case true | try_block_case true |].
    exfalso. exact (remote_error_message_typed _ Hm).
Qed.

(** The dispatcher does not change the service. *)
Lemma typed_service_entered (state : ZenithState) (cid content : jsstring)
    (w : World) :
  typed_service w -> typed_service (entered (started state w) cid content).
Proof.
  intros H. unfold typed_service.
  replace (remote (entered (started state w) cid content)) with (remote w);
    [exact H |].
  unfold started. destruct (is_truthy (activeConversationId state)); reflexivity.
Qed.

Lemma last_of_nonempty {A} (l : list A) : l <> [] -> last_of l <> None.
Proof.
  intros H. unfold last_of. apply nth_error_Some.
  destruct l; [contradiction | cbn; lia].
Qed.

Lemma sendMessage_resolved (state : ZenithState) (content cid : jsstring)
    (w : World) :
  resolve_conversation state = Ok cid ->
  sendMessage state content w
  = try_catch_finally (request_reply state cid content) (report_error cid)
      (dispatch (SET_LOADING false))
      (entered (started state w) cid content).
Proof.
  intros H. unfold sendMessage, started. rewrite H.
  destruct (is_truthy (activeConversationId state)); reflexivity.
Qed.

(** The user message, with its dates. *)
Lemma entered_user_message (w : World) (cid content : jsstring) :
  exists u now,
    Message.role u = user
    /\ Message.content u = content
    /\ (exists k, Message.createdAt u = TimeClip (clock w k))
    /\ (exists k, now = TimeClip (clock w k))
    /\ conversations (store (entered w cid content))
       = map (add_message now cid u) (conversations (store w))
    /\ activeConversationId (store (entered w cid content))
       = activeConversationId (store w)
    /\ apiKey (store (entered w cid content)) = apiKey (store w)
    /\ clock (entered w cid content) = clock w.
Proof.
  eexists (Message.mk _ user content _), _.
  repeat split; cbn; eauto.
Qed.

(** When [sendMessage] rejects. With a service that sends a string as
    content, a send from the latest render rejects exactly when the
    store has no active id and no conversation: the TypeError of reading
    the id of a missing last conversation, thrown after the new
    conversation was dispatched, which is then the only one, active and
    without message, the busy flag being left as it was. In every other
    store the send settles without rejecting, whatever the service
    answers, and the busy flag is false then. *)
Theorem sendMessage_rejects_only_unresolved (content : jsstring) (w : World) :
  typed_service w ->
  let '(r, w') := sendMessage (store w) content w in
  if is_truthy (activeConversationId (store w))
     || negb (Nat.eqb (List.length (conversations (store w))) 0)
  then r = Ok tt /\ loading (store w') = false
  else r = Throw (cannot_read "undefined" "id")
       /\ loading (store w') = loading (store w)
       /\ exists created,
            conversations (store w') = [created]
            /\ Conversation.messages created = []
            /\ Conversation.title created = default_title
            /\ activeConversationId (store w') = Some (Conversation.id created).
Proof.
  intros Ht.
  destruct (sendMessage (store w) content w) as [r w'] eqn:E.
  destruct (is_truthy (activeConversationId (store w))) eqn:Ha; cbn [orb].
  - assert (R : exists cid, resolve_conversation (store w) = Ok cid).
    { unfold resolve_conversation, is_truthy in *.
      destruct (activeConversationId (store w)) as [a |]; [| discriminate].
      rewrite Ha. eauto. }
    destruct R as [cid R]. rewrite (sendMessage_resolved _ _ _ _ R) in E.
    destruct (try_block_outcome (store w) cid content
                (entered (started (store w) w) cid content))
      as (r0 & w0 & follow & Hrun & _ & _ & _ & _ & _ & _ & _ & _ & _ & Hl & Hok).
    rewrite Hrun in E. injection E as <- <-.
    split; [apply Hok, typed_service_entered, Ht | exact Hl].
  - destruct (conversations (store w)) as [| c0 rest] eqn:Hc; cbn [List.length Nat.eqb negb].
    + unfold sendMessage, resolve_conversation in E. rewrite Ha, Hc in E.
      unfold is_truthy in Ha.
      assert (R : match activeConversationId (store w) with
                  | Some id =>
                      if nonempty id then Ok id
                      else match @last_of Conversation.t [] with
                           | Some c => Ok (Conversation.id c)
                           | None => Throw (cannot_read "undefined" "id")
                           end
                  | None =>
                      match @last_of Conversation.t [] with
                      | Some c => Ok (Conversation.id c)
                      | None => Throw (cannot_read "undefined" "id")
                      end
                  end = Throw (cannot_read "undefined" "id")).
      { destruct (activeConversationId (store w)) as [a |]; [rewrite Ha |];
          reflexivity. }
      rewrite R in E. cbn [negb] in E.
      unfold bind, createNewConversation, bind, nanoid, current_Date,
        dispatch, lift in E.
      cbn [store tick reads clock ids zenithReducer conversations
           activeConversationId loading] in E.
      rewrite Hc in E. injection E as <- <-.
      split; [reflexivity |]. split; [reflexivity |].
      eexists (Conversation.mk _ default_title [] _ _). repeat split.
    + assert (R : exists cid, resolve_conversation (store w) = Ok cid).
      { unfold resolve_conversation, is_truthy in *. rewrite Hc.
        pose proof (last_of_nonempty (c0 :: rest) ltac:(discriminate)) as Hl.
        destruct (last_of (c0 :: rest)) as [lc |]; [| contradiction].
        destruct (activeConversationId (store w)) as [a |];
          [rewrite Ha |]; eauto. }
      destruct R as [cid R]. rewrite (sendMessage_resolved _ _ _ _ R) in E.
      destruct (try_block_outcome (store w) cid content
                  (entered (started (store w) w) cid content))
        as (r0 & w0 & follow & Hrun & _ & _ & _ & _ & _ & _ & _ & _ & _ & Hl & Hok).
      rewrite Hrun in E. injection E as <- <-.
      split; [apply Hok, typed_service_entered, Ht | exact Hl].
Qed.

(** The sample services send a string as content, or nothing. *)
Lemma greeting_service_typed (state : ZenithState) (ls : Storage) :
  typed_service (world_of state ls greeting_service).
Proof.
  intros request data content H E. injection H as <-.
  vm_compute in E. injection E as <-. eexists. reflexivity.
Qed.

Lemma no_service_typed (state : ZenithState) (ls : Storage) :
  typed_service (world_of state ls no_service).
Proof. intros request data content H. discriminate H. Qed.

Lemma sendMessage_rejects_only_unresolved_witness :
  let w := world_of fresh_state fresh_storage greeting_service in
  typed_service w
  /\ (let '(r, w') := sendMessage (store w) "Hi" w in
      r = Ok tt /\ loading (store w') = false).
Proof.
  intros w. split; [apply greeting_service_typed |].
  exact (sendMessage_rejects_only_unresolved "Hi" w
           (greeting_service_typed fresh_state fresh_storage)).
Defined.

Lemma add_message_absent (now : Date) (cid : jsstring) (m : Message.t)
    (l : list Conversation.t) :
  find (fun c => JSString.eqb (Conversation.id c) cid) l = None ->
  map (add_message now cid m) l = l.
Proof.
  apply find_none_map_id. intros c Hc. unfold add_message. rewrite Hc.
  reflexivity.
Qed.

(** A send under a dangling selection is lost. When the active id is
    non-empty and names no conversation, a send from the latest render
    settles, whatever the credential and the service; no conversation is
    changed or created, neither the user message nor an error message
    is kept, and the busy flag is false. *)
Theorem sendMessage_lost_when_dangling (content active : jsstring) (w : World) :
  activeConversationId (store w) = Some active ->
  nonempty active = true ->
  activeConversation (store w) = None ->
  exists w',
    sendMessage (store w) content w = (Ok tt, w')
    /\ conversations (store w') = conversations (store w)
    /\ activeConversationId (store w') = Some active
    /\ apiKey (store w') = apiKey (store w)
    /\ loading (store w') = false.
Proof.
  intros Ha Hn Hnone.
  assert (Hf : find (fun c => JSString.eqb (Conversation.id c) active)
                    (conversations (store w)) = None).
  { unfold activeConversation in Hnone. rewrite Ha, Hn in Hnone. exact Hnone. }
  assert (R : resolve_conversation (store w) = Ok active).
  { unfold resolve_conversation. rewrite Ha, Hn. reflexivity. }
  rewrite (sendMessage_resolved _ _ _ _ R).
  assert (Hst : started (store w) w = w).
  { unfold started, is_truthy. rewrite Ha, Hn. reflexivity. }
  rewrite Hst.
  destruct (entered_user_message w active content)
    as (u & t1 & _ & _ & _ & _ & Hconv & Hact & Hkey & _).
  rewrite (add_message_absent _ _ _ _ Hf) in Hconv.
  destruct (try_block_outcome (store w) active content (entered w active content))
    as (r & w' & follow & Hrun & _ & Hc' & _ & Hact' & Hkey' & Hl & _ & Hok & _).
  specialize (Hok Hf). subst r. exists w'.
  split; [exact Hrun |].
  split.
  - rewrite Hc', Hconv. destruct follow as [[now a] |]; [| reflexivity].
    apply add_message_absent. exact Hf.
  - repeat split; try congruence. apply Hl. reflexivity.
Qed.

Lemma sendMessage_lost_when_dangling_witness :
  let w := world_of dangling_state saved_storage greeting_service in
  exists w',
    sendMessage (store w) "Hi" w = (Ok tt, w')
    /\ conversations (store w') = conversations (store w)
    /\ activeConversationId (store w') = Some "gone"
    /\ apiKey (store w') = apiKey (store w)
    /\ loading (store w') = false.
Proof.
  intros w.
  apply (sendMessage_lost_when_dangling "Hi" "gone" w); reflexivity.
Defined.

(** The user message comes first, then the one answer. With a service
    that sends a string as content, a send from the latest render of a
    store with an active conversation settles with the busy flag false,
    and that conversation then has its old messages, the user message
    with the sent content and one assistant message, in this order. Its
    title is kept, unless it had no message and the default title: the
    title is then the first 30 code units of the sent content, or all
    of it when it has fewer, followed by "...". *)
Theorem sendMessage_user_message_first (content : jsstring) (w : World)
    (c : Conversation.t) :
  typed_service w ->
  activeConversation (store w) = Some c ->
  exists w' u a c',
    sendMessage (store w) content w = (Ok tt, w')
    /\ loading (store w') = false
    /\ (Message.role u = user /\ Message.content u = content)
    /\ Message.role a = assistant
    /\ activeConversation (store w') = Some c'
    /\ Conversation.id c' = Conversation.id c
    /\ Conversation.messages c' = (Conversation.messages c ++ [u; a])%list
    /\ exists kept dropped,
         Conversation.title c'
         = (if first_message_of_untitled (Conversation.id c) c
            then kept ++ "..."
            else Conversation.title c)
         /\ content = kept ++ dropped
         /\ JSString.length kept = Nat.min 30 (JSString.length content).
Proof.
  intros Ht Hc.
  destruct (activeConversation_inv _ _ Hc) as (Ha & Hn & Hf).
  assert (R : resolve_conversation (store w) = Ok (Conversation.id c)).
  { unfold resolve_conversation. rewrite Ha, Hn. reflexivity. }
  rewrite (sendMessage_resolved _ _ _ _ R).
  pose proof (typed_service_entered (store w) (Conversation.id c) content w Ht)
    as Ht'.
  assert (Hst : started (store w) w = w).
  { unfold started, is_truthy. rewrite Ha, Hn. reflexivity. }
  rewrite Hst in *. set (cid := Conversation.id c) in *.
  destruct (entered_user_message w cid content)
    as (u & t1 & Hur & Huc & _ & _ & Hconv & Hact & _ & _).
  destruct (try_block_outcome (store w) cid content (entered w cid content))
    as (r & w' & follow & Hrun & _ & Hc' & Hfa & Hact' & _ & _ & Hsome & _
        & _ & Hl & Hok).
  specialize (Hok Ht'). subst r.
  assert (Hfollow : follow <> None).
  { apply Hsome; [reflexivity |]. rewrite Hf. discriminate. }
  destruct follow as [[t2 a] |]; [| contradiction].
  destruct (Hfa t2 a eq_refl) as (Har & _).
  destruct (JSStringFacts.slice0_prefix 30 content) as [Hlen Hsplit].
  exists w', u, a, (add_message t2 cid a (add_message t1 cid u c)).
  split; [exact Hrun |]. split; [exact Hl |]. split; [auto |].
  split; [exact Har |]. split.
  { unfold activeConversation. rewrite Hact', Hact, Ha, Hn, Hc', Hconv.
    rewrite !find_map, Hf; try reflexivity; try assumption.
    - intros x. rewrite add_message_id. reflexivity.
    - intros x. rewrite add_message_id. reflexivity. }
  split; [autorewrite with conversation; reflexivity |].
  split.
  { autorewrite with conversation. unfold cid.
    rewrite JSStringFacts.eqb_refl, <- app_assoc. reflexivity. }
  exists (slice0 30 content), (skipn 30 content).
  split; [| split; [exact Hsplit | exact Hlen]].
  rewrite add_message_title, add_message_settled. unfold cid.
  rewrite JSStringFacts.eqb_refl. cbn [negb]. rewrite andb_false_r.
  rewrite add_message_title, Huc. reflexivity.
Qed.

Lemma sendMessage_user_message_first_witness :
  let w := world_of fresh_state fresh_storage greeting_service in
  typed_service w
  /\ exists w' u a c',
       sendMessage (store w) "Tell me about the history of proof assistants" w
       = (Ok tt, w')
       /\ loading (store w') = false
       /\ (Message.role u = user
           /\ Message.content u
              = "Tell me about the history of proof assistants")
       /\ Message.role a = assistant
       /\ activeConversation (store w') = Some c'
       /\ Conversation.id c' = "c0"
       /\ Conversation.messages c' = [u; a]
       /\ exists kept dropped,
            Conversation.title c' = kept ++ "..."
            /\ ("Tell me about the history of proof assistants" : jsstring)
               = kept ++ dropped
            /\ JSString.length kept = 30%nat.
Proof.
  intros w. split; [apply greeting_service_typed |].
  apply (sendMessage_user_message_first
           "Tell me about the history of proof assistants" w fresh_conversation).
  - apply greeting_service_typed.
  - reflexivity.
Defined.

Lemma last_of_snoc {A} (l : list A) (x : A) : last_of (l ++ [x]) = Some x.
Proof.
  unfold last_of. rewrite length_app. cbn [List.length].
  replace (List.length l + 1 - 1)%nat with (List.length l) by lia.
  rewrite nth_error_app2 by lia. rewrite Nat.sub_diag. reflexivity.
Qed.

(** With no active id the send goes to the last conversation that the
    closure knows, not to the one it creates. With a service that sends
    a string as content, when the closure's state has a falsy active id
    and a non-empty list, a send from the latest render settles with
    the busy flag false; it appends one new conversation, makes it
    active and leaves it without message (its id being another than
    that of the old last conversation), while the user message and
    then one assistant message are appended to the conversations that
    have the id of the old last one. *)
Theorem sendMessage_goes_to_old_last (content : jsstring) (w : World)
    (init : list Conversation.t) (lastc : Conversation.t) :
  typed_service w ->
  is_truthy (activeConversationId (store w)) = false ->
  conversations (store w) = (init ++ [lastc])%list ->
  ids w (reads w) <> Conversation.id lastc ->
  exists w' u a olds created,
    sendMessage (store w) content w = (Ok tt, w')
    /\ loading (store w') = false
    /\ conversations (store w') = (olds ++ [created])%list
    /\ Conversation.id created = ids w (reads w)
    /\ Conversation.messages created = []
    /\ activeConversationId (store w') = Some (Conversation.id created)
    /\ (Message.role u = user /\ Message.content u = content)
    /\ Message.role a = assistant
    /\ Forall2 (grown (Conversation.id lastc) [u; a])
         (conversations (store w)) olds.
Proof.
  intros Ht Ha Hc Hid. set (cid := Conversation.id lastc) in *.
  assert (R : resolve_conversation (store w) = Ok cid).
  { unfold resolve_conversation, is_truthy in *.
    rewrite Hc, last_of_snoc.
    destruct (activeConversationId (store w)) as [a |]; [rewrite Ha |];
      reflexivity. }
  rewrite (sendMessage_resolved _ _ _ _ R).
  pose proof (typed_service_entered (store w) cid content w Ht) as Ht'.
  unfold started in *. rewrite Ha in *.
  set (w1 := snd (createNewConversation w)) in *.
  set (created := Conversation.mk (ids w (reads w)) default_title []
                    (TimeClip (clock w (S (reads w))))
                    (TimeClip (clock w (S (S (reads w)))))).
  assert (H1 : conversations (store w1) = (conversations (store w) ++ [created])%list)
    by reflexivity.
  assert (H1a : activeConversationId (store w1) = Some (ids w (reads w)))
    by reflexivity.
  assert (Hcreated : forall now m, add_message now cid m created = created).
  { intros now m. unfold add_message. cbn [Conversation.id created].
    apply JSStringFacts.eqb_neq in Hid. rewrite Hid. reflexivity. }
  assert (Hfound : find (fun x => JSString.eqb (Conversation.id x) cid)
                     (conversations (store w)) <> None).
  { rewrite Hc. intros Hnone.
    pose proof (find_none _ _ Hnone lastc) as Hl. cbv beta in Hl.
    unfold cid in Hl. rewrite JSStringFacts.eqb_refl in Hl.
    discriminate Hl. apply in_or_app. right. left. reflexivity. }
  destruct (entered_user_message w1 cid content)
    as (u & t1 & Hur & Huc & _ & _ & Hconv & Hact & _ & _).
  destruct (try_block_outcome (store w) cid content (entered w1 cid content))
    as (r & w' & follow & Hrun & _ & Hc' & Hfa & Hact' & _ & _ & Hsome & _
        & _ & Hl & Hok).
  specialize (Hok Ht'). subst r. specialize (Hsome eq_refl Hfound).
  destruct follow as [[t2 a] |]; [| contradiction].
  destruct (Hfa t2 a eq_refl) as (Har & _).
  rewrite Hconv, H1, !map_app in Hc'. cbn [map] in Hc'.
  rewrite !Hcreated in Hc'.
  exists w', u, a,
    (map (add_message t2 cid a)
       (map (add_message t1 cid u) (conversations (store w)))), created.
  repeat split; try assumption; try congruence.
  apply grown_by_two.
Qed.

Lemma sendMessage_goes_to_old_last_witness :
  let w := world_of unselected_state saved_storage no_service in
  typed_service w
  /\ exists w' u a olds created,
       sendMessage (store w) "Hi" w = (Ok tt, w')
       /\ loading (store w') = false
       /\ conversations (store w') = (olds ++ [created])%list
       /\ Conversation.id created = "id-a"
       /\ Conversation.messages created = []
       /\ activeConversationId (store w') = Some (Conversation.id created)
       /\ (Message.role u = user /\ Message.content u = "Hi")
       /\ Message.role a = assistant
       /\ Forall2 (grown "c1" [u; a]) [sample_conversation] olds.
Proof.
  intros w. split; [apply no_service_typed |].
  apply (sendMessage_goes_to_old_last "Hi" w [] sample_conversation).
  - apply no_service_typed.
  - reflexivity.
  - reflexivity.
  - discriminate.
Defined.

(** ** The message list *)

Lemma render_row_shows (m : Message.t) :
  if is_time_value (Message.createdAt m)
  then exists row, render_row m = Ok row /\ shows m row
  else render_row m = Throw (ErrorObject "RangeError" "Invalid time value").
Proof.
  unfold render_row, shows. destruct m as [i r c d]. cbn.
  destruct d as [t |]; cbn; [| reflexivity].
  eexists. split; [reflexivity |]. cbn. destruct r; repeat split.
Qed.

Lemma render_rows (ms : list Message.t) :
  if forallb (fun m => is_time_value (Message.createdAt m)) ms
  then exists rows, rmap render_row ms = Ok rows /\ Forall2 shows ms rows
  else rmap render_row ms
       = Throw (ErrorObject "RangeError" "Invalid time value").
Proof.
  induction ms as [| m rest IH]; cbn [forallb rmap].
  - exists []. split; [reflexivity | constructor].
  - pose proof (render_row_shows m) as Hm.
    destruct (is_time_value (Message.createdAt m)); cbn [andb].
    + destruct Hm as (row & -> & Hrow). cbn [rbind].
      destruct (forallb _ rest).
      * destruct IH as (rows & -> & Hrows). cbn [rbind].
        exists (row :: rows). split; [reflexivity | now constructor].
      * rewrite IH. reflexivity.
    + rewrite Hm. reflexivity.
Qed.

(** What the message list shows. With no active conversation it is the
    "no conversation selected" body; with an active conversation without
    message, the welcome body; otherwise one row per message, in order,
    the user's at the end side and the others at the start side. It
    throws, a RangeError, exactly when the active conversation has a
    message whose date is not a time value. *)
Theorem MessageList_shows (state : ZenithState) :
  match activeConversation state with
  | None => MessageList state = Ok NoConversationSelected
  | Some c =>
      if forallb (fun m => is_time_value (Message.createdAt m))
                 (Conversation.messages c)
      then match Conversation.messages c with
           | [] => MessageList state = Ok Welcome
           | _ => exists rows,
                    MessageList state = Ok (Thread rows)
                    /\ Forall2 shows (Conversation.messages c) rows
           end
      else MessageList state
           = Throw (ErrorObject "RangeError" "Invalid time value")
  end.
Proof.
  unfold MessageList.
  destruct (activeConversation state) as [c |]; [| reflexivity].
  pose proof (render_rows (Conversation.messages c)) as H.
  destruct (Conversation.messages c) as [| m rest] eqn:E; [reflexivity |].
  destruct (forallb _ (m :: rest)).
  - destruct H as (rows & -> & Hrows). exists rows. split; [reflexivity | exact Hrows].
  - rewrite H. reflexivity.
Qed.

(** After [clearConversation] the message list shows the welcome body
    if there was an active conversation, whatever its messages were, and
    the "no conversation selected" body otherwise. *)
Theorem MessageList_after_clear (w : World) :
  MessageList (store (snd (clearConversation w)))
  = match activeConversation (store w) with
    | Some _ => Ok Welcome
    | None => Ok NoConversationSelected
    end.
Proof.
  unfold clearConversation, dispatch. cbn [snd store].
  destruct (reducer_clear (TimeClip (clock w (reads w))) (store w))
    as (_ & _ & _ & H).
  unfold MessageList.
  destruct (activeConversation (store w)) as [c |] eqn:E.
  - destruct H as [-> _]. reflexivity.
  - rewrite H, E. reflexivity.
Qed.

Lemma find_app_none {A} (p : A -> bool) (l : list A) (x : A) :
  find p l = None -> find p (l ++ [x]) = if p x then Some x else None.
Proof.
  induction l as [| y l IH]; cbn [app find]; [reflexivity |].
  destruct (p y); [discriminate | exact IH].
Qed.

(** [createNewConversation], when [nanoid()] returns a non-empty id that
    no conversation has: the new conversation is appended last with the
    default title and no message, it becomes the active conversation,
    the message list shows the welcome body, and the storage holds the
    new list. *)
Theorem createNewConversation_selects_new (w : World) :
  nonempty (ids w (reads w)) = true ->
  find (fun c => JSString.eqb (Conversation.id c) (ids w (reads w)))
       (conversations (store w)) = None ->
  let w' := snd (createNewConversation w) in
  exists created,
    conversations (store w') = (conversations (store w) ++ [created])%list
    /\ activeConversation (store w') = Some created
    /\ Conversation.id created = ids w (reads w)
    /\ Conversation.title created = default_title
    /\ Conversation.messages created = []
    /\ MessageList (store w') = Ok Welcome
    /\ zenith_conversations (localStorage w')
       = Some (JSON_stringify (conversations (store w'))).
Proof.
  intros Hn Hf w'.
  exists (Conversation.mk (ids w (reads w)) default_title []
            (TimeClip (clock w (S (reads w))))
            (TimeClip (clock w (S (S (reads w)))))).
  assert (Hact : activeConversation (store w')
                 = Some (Conversation.mk (ids w (reads w)) default_title []
                           (TimeClip (clock w (S (reads w))))
                           (TimeClip (clock w (S (S (reads w))))))).
  { unfold activeConversation. subst w'.
    cbn [createNewConversation bind nanoid current_Date dispatch snd store tick
         reads clock ids zenithReducer activeConversationId conversations
         Conversation.id].
    rewrite Hn, (find_app_none _ _ _ Hf). cbn [Conversation.id].
    rewrite JSStringFacts.eqb_refl. reflexivity. }
  split; [reflexivity |]. split; [exact Hact |].
  repeat (split; [reflexivity |]). split.
  - unfold MessageList. rewrite Hact. reflexivity.
  - subst w'. unfold createNewConversation, bind, nanoid, current_Date, dispatch.
    cbn [snd localStorage store tick]. rewrite persist_conversations.
    cbn [zenithReducer conversations].
    destruct (conversations (store w)); reflexivity.
Qed.

Lemma createNewConversation_selects_new_witness :
  let w := world_of sample_state saved_storage no_service in
  let w' := snd (createNewConversation w) in
  exists created,
    conversations (store w') = (conversations (store w) ++ [created])%list
    /\ activeConversation (store w') = Some created
    /\ Conversation.id created = "id-a"
    /\ Conversation.title created = default_title
    /\ Conversation.messages created = []
    /\ MessageList (store w') = Ok Welcome
    /\ zenith_conversations (localStorage w')
       = Some (JSON_stringify (conversations (store w'))).
Proof.
  intros w.
  apply (createNewConversation_selects_new w); reflexivity.
Defined.

Lemma rmap_app {A B} (f : A -> result B) (l1 l2 : list A) (r1 r2 : list B) :
  rmap f l1 = Ok r1 -> rmap f l2 = Ok r2 ->
  rmap f (l1 ++ l2) = Ok (r1 ++ r2)%list.
Proof.
  revert r1. induction l1 as [| x l1 IH]; intros r1 H1 H2.
  - cbn in H1. injection H1 as <-. exact H2.
  - cbn [app rmap] in *. destruct (f x) as [y | |]; try discriminate H1.
    cbn [rbind] in *. destruct (rmap f l1) as [ys | |]; try discriminate H1.
    cbn [rbind] in H1. injection H1 as <-.
    rewrite (IH ys eq_refl H2). reflexivity.
Qed.

Lemma TimeClip_in_range (w : World) (k : nat) :
  clock_in_range w -> TimeClip (clock w k) = Instant (clock w k).
Proof.
  intros H. unfold TimeClip.
  destruct (Z.leb_spec (Z.abs (clock w k)) maxTime); [reflexivity |].
  specialize (H k). lia.
Qed.

Lemma MessageList_thread (state : ZenithState) (c : Conversation.t) :
  activeConversation state = Some c ->
  Conversation.messages c <> [] ->
  MessageList state
  = let? rows := rmap render_row (Conversation.messages c) in Ok (Thread rows).
Proof.
  intros Hc Hne. unfold MessageList. rewrite Hc.
  destruct (Conversation.messages c); [contradiction | reflexivity].
Qed.

(** A settled send, with the dates of its two messages. *)
Lemma sendMessage_settled_dated (content : jsstring) (w w' : World)
    (c : Conversation.t) :
  activeConversation (store w) = Some c ->
  sendMessage (store w) content w = (Ok tt, w') ->
  exists u a c',
    activeConversation (store w') = Some c'
    /\ Conversation.messages c' = (Conversation.messages c ++ [u; a])%list
    /\ (Message.role u = user /\ Message.content u = content)
    /\ Message.role a = assistant
    /\ (exists k, Message.createdAt u = TimeClip (clock w k))
    /\ (exists k, Message.createdAt a = TimeClip (clock w k)).
Proof.
  intros Hc Hsend.
  destruct (activeConversation_inv _ _ Hc) as (Ha & Hn & Hf).
  assert (R : resolve_conversation (store w) = Ok (Conversation.id c)).
  { unfold resolve_conversation. rewrite Ha, Hn. reflexivity. }
  rewrite (sendMessage_resolved _ _ _ _ R) in Hsend.
  assert (Hst : started (store w) w = w).
  { unfold started, is_truthy. rewrite Ha, Hn. reflexivity. }
  rewrite Hst in Hsend. set (cid := Conversation.id c) in *.
  destruct (entered_user_message w cid content)
    as (u & t1 & Hur & Huc & Hud & _ & Hconv & Hact & _ & Hclock).
  destruct (try_block_outcome (store w) cid content (entered w cid content))
    as (r & w0 & follow & Hrun & _ & Hc' & Hfa & Hact' & _ & _ & Hsome & _).
  rewrite Hrun in Hsend. injection Hsend as -> ->.
  destruct follow as [[t2 a] |];
    [| exfalso; apply (Hsome eq_refl); [rewrite Hf; discriminate | reflexivity]].
  destruct (Hfa t2 a eq_refl) as (Har & _ & Had). rewrite Hclock in Had.
  exists u, a, (add_message t2 cid a (add_message t1 cid u c)).
  split.
  { unfold activeConversation. rewrite Hact', Hact, Ha, Hn, Hc', Hconv.
    rewrite !find_map, Hf; try reflexivity;
      intros x; rewrite ?add_message_id; reflexivity. }
  split.
  { autorewrite with conversation. unfold cid.
    rewrite JSStringFacts.eqb_refl, <- app_assoc. reflexivity. }
  auto.
Qed.

(** What the user sees after a settled send. When the clock is in range
    and every message of the active conversation has a time value, then
    after a send from the latest render has settled the message list
    shows the rows it showed for the old messages, then a row at the end
    side with the sent content, then one row at the start side for the
    assistant's reply or error. *)
Theorem thread_after_send (content : jsstring) (w w' : World)
    (c : Conversation.t) :
  activeConversation (store w) = Some c ->
  clock_in_range w ->
  forallb (fun m => is_time_value (Message.createdAt m))
          (Conversation.messages c) = true ->
  sendMessage (store w) content w = (Ok tt, w') ->
  exists rows mine reply,
    rmap render_row (Conversation.messages c) = Ok rows
    /\ Forall2 shows (Conversation.messages c) rows
    /\ MessageList (store w') = Ok (Thread (rows ++ [mine; reply]))
    /\ (justify mine = justify_end /\ markdown mine = content)
    /\ justify reply = justify_start.
Proof.
  intros Hc Hclock Hdates Hsend.
  destruct (sendMessage_settled_dated content w w' c Hc Hsend)
    as (u & a & c' & Hc' & Hm & [Hur Huc] & Har & [ku Hud] & [ka Had]).
  pose proof (render_rows (Conversation.messages c)) as Hrows.
  rewrite Hdates in Hrows. destruct Hrows as (rows & Hrows & Hshow).
  rewrite (TimeClip_in_range _ ku Hclock) in Hud.
  rewrite (TimeClip_in_range _ ka Hclock) in Had.
  assert (Hu : render_row u
               = Ok {| key := Message.id u; justify := justify_end;
                       markdown := content; time := clock w ku |}).
  { unfold render_row. rewrite Hud, Hur, Huc. reflexivity. }
  assert (Ha : render_row a
               = Ok {| key := Message.id a; justify := justify_start;
                       markdown := Message.content a; time := clock w ka |}).
  { unfold render_row. rewrite Had, Har. reflexivity. }
  eexists rows, _, _.
  split; [exact Hrows |]. split; [exact Hshow |]. split.
  - assert (Htwo : rmap render_row [u; a] = Ok [_; _])
      by (cbn [rmap]; rewrite Hu, Ha; reflexivity).
    rewrite (MessageList_thread _ _ Hc'), Hm.
    + rewrite (rmap_app _ _ _ _ _ Hrows Htwo). reflexivity.
    + rewrite Hm. intros E. apply app_eq_nil in E as [_ E]. discriminate E.
  - cbn. auto.
Qed.

Lemma thread_after_send_witness :
  let w := steady_world keyed_state keyed_storage greeting_service in
  exists w' rows mine reply,
    sendMessage (store w) "More" w = (Ok tt, w')
    /\ rmap render_row (Conversation.messages sample_conversation) = Ok rows
    /\ Forall2 shows (Conversation.messages sample_conversation) rows
    /\ MessageList (store w') = Ok (Thread (rows ++ [mine; reply]))
    /\ (justify mine = justify_end /\ markdown mine = "More")
    /\ justify reply = justify_start.
Proof.
  intros w.
  assert (Hsend : sendMessage (store w) "More" w
                  = (Ok tt, snd (sendMessage (store w) "More" w)))
    by (vm_compute; reflexivity).
  assert (Hclock : clock_in_range w).
  { intros n. unfold w, steady_world, clock, steady_clock, maxTime. lia. }
  destruct (thread_after_send "More" w _ sample_conversation
              eq_refl Hclock eq_refl Hsend)
    as (rows & mine & reply & H).
  exists (snd (sendMessage (store w) "More" w)), rows, mine, reply.
  split; [exact Hsend | exact H].
Defined.
